(** * A shallow embedding of the ledger core of [app.py]

    The development follows the Python classes [Transaction], [Block] and
    [Blockchain] and the route handlers that call their writing methods.

    - Python [int]s are integers of [Z].  In the ledger, amounts and clock
      readings range over the integers, whose JSON text is their decimal
      numeral and whose sums are exact; text is [string], one character per
      code point below 256.  The routes store [float(amount)]: the loop of
      [get_balance] is therefore stated once more for any arithmetic
      (module [Amounts]) and run in binary64 where rounding matters.
    - A transaction is one record, whether the program holds it as a
      [Transaction] object or, in a chain received from a peer, as a mapping
      with the same four keys.
    - The [hash] property of a block is read as a value; the write to the
      cache it performs cannot be observed, since every later change of a
      field clears the cache.
    - [time.time()], [urlparse] and [requests.get] belong to the
      environment: clock readings are arguments, the other two are functions
      handed to the methods that call them.  [urlparse] stands for its
      result on the addresses it parses; on an address it refuses with
      [ValueError] (an unclosed bracket in the host), [register_node] raises
      before it writes anything.  Bodies of answers are decoded and
      well-typed.
    - The [while] loop of [mine_block] runs on fuel. *)

From Stdlib Require Import PrimFloat.
From Stdlib Require FloatAxioms.
From Stdlib Require Import ZArith Lia List Bool Ascii String DecimalString.
From Stdlib Require Import Permutation.
From stdpp Require Import base option list strings gmap.

Local Open Scope string_scope.
Local Open Scope list_scope.
Local Open Scope Z_scope.

(** ** hashlib.sha256(...).hexdigest() *)

Module Sha256.

Definition mask32 (x : Z) : Z := Z.land x 4294967295.
Definition add32 (x y : Z) : Z := mask32 (x + y).
Definition rotr (n x : Z) : Z :=
  Z.lor (Z.shiftr x n) (mask32 (Z.shiftl x (32 - n))).
Definition shr (n x : Z) : Z := Z.shiftr x n.
Definition xor3 (x y z : Z) : Z := Z.lxor (Z.lxor x y) z.

Definition ch (x y z : Z) : Z :=
  Z.lxor (Z.land x y) (Z.land (Z.lxor x 4294967295) z).
Definition maj (x y z : Z) : Z :=
  xor3 (Z.land x y) (Z.land x z) (Z.land y z).
Definition big_sigma0 (x : Z) : Z := xor3 (rotr 2 x) (rotr 13 x) (rotr 22 x).
Definition big_sigma1 (x : Z) : Z := xor3 (rotr 6 x) (rotr 11 x) (rotr 25 x).
Definition small_sigma0 (x : Z) : Z := xor3 (rotr 7 x) (rotr 18 x) (shr 3 x).
Definition small_sigma1 (x : Z) : Z := xor3 (rotr 17 x) (rotr 19 x) (shr 10 x).

(** Round constants and initial state, in decimal. *)
Definition round_constants : list Z :=
  [ 1116352408; 1899447441; 3049323471; 3921009573; 961987163; 1508970993;
    2453635748; 2870763221; 3624381080; 310598401; 607225278; 1426881987;
    1925078388; 2162078206; 2614888103; 3248222580; 3835390401; 4022224774;
    264347078; 604807628; 770255983; 1249150122; 1555081692; 1996064986;
    2554220882; 2821834349; 2952996808; 3210313671; 3336571891; 3584528711;
    113926993; 338241895; 666307205; 773529912; 1294757372; 1396182291;
    1695183700; 1986661051; 2177026350; 2456956037; 2730485921; 2820302411;
    3259730800; 3345764771; 3516065817; 3600352804; 4094571909; 275423344;
    430227734; 506948616; 659060556; 883997877; 958139571; 1322822218;
    1537002063; 1747873779; 1955562222; 2024104815; 2227730452; 2361852424;
    2428436474; 2756734187; 3204031479; 3329325298 ].

Definition initial_state : list Z :=
  [ 1779033703; 3144134277; 1013904242; 2773480762;
    1359893119; 2600822924; 528734635; 1541459225 ].

Definition word_at (l : list Z) (i : nat) : Z := nth i l 0.

(** The message schedule keeps a window of the last sixteen words. *)
Fixpoint schedule (n : nat) (window : list Z) : list Z :=
  match n with
  | O => []
  | S k =>
      let w := add32 (add32 (small_sigma1 (word_at window 14)) (word_at window 9))
                     (add32 (small_sigma0 (word_at window 1)) (word_at window 0)) in
      w :: schedule k (List.tl window ++ [w])
  end.

Definition round (st : list Z) (kw : Z * Z) : list Z :=
  match st with
  | [a; b; c; d; e; f; g; h] =>
      let t1 := add32 (add32 (add32 h (big_sigma1 e)) (ch e f g))
                      (add32 (fst kw) (snd kw)) in
      let t2 := add32 (big_sigma0 a) (maj a b c) in
      [add32 t1 t2; a; b; c; add32 d t1; e; f; g]
  | _ => st
  end.

Fixpoint zip_add (xs ys : list Z) : list Z :=
  match xs, ys with
  | x :: xs', y :: ys' => add32 x y :: zip_add xs' ys'
  | _, _ => []
  end.

Fixpoint words_of_bytes (bs : list Z) : list Z :=
  match bs with
  | b0 :: b1 :: b2 :: b3 :: rest =>
      (((b0 * 256 + b1) * 256 + b2) * 256 + b3) :: words_of_bytes rest
  | _ => []
  end.

Definition compress (st : list Z) (chunk : list Z) : list Z :=
  let w16 := words_of_bytes chunk in
  let w := w16 ++ schedule 48 w16 in
  zip_add st (fold_left round (combine round_constants w) st).

Fixpoint absorb (n : nat) (st : list Z) (bs : list Z) : list Z :=
  match n with
  | O => st
  | S k => absorb k (compress st (firstn 64 bs)) (skipn 64 bs)
  end.

Fixpoint be_bytes (n : nat) (x : Z) : list Z :=
  match n with
  | O => []
  | S k => be_bytes k (x / 256) ++ [x mod 256]
  end.

Definition pad (bs : list Z) : list Z :=
  let len := Z.of_nat (List.length bs) in
  bs ++ [128] ++ repeat 0 (Z.to_nat ((55 - len) mod 64)) ++ be_bytes 8 (8 * len).

Definition hex_digit (x : Z) : ascii :=
  ascii_of_nat (Z.to_nat (if x <? 10 then 48 + x else 87 + x)).

Fixpoint hex_of (n : nat) (x : Z) (acc : string) : string :=
  match n with
  | O => acc
  | S k => hex_of k (x / 16) (String (hex_digit (x mod 16)) acc)
  end.

Definition bytes_of_string (s : string) : list Z :=
  map (fun c => Z.of_nat (nat_of_ascii c)) (list_ascii_of_string s).

Definition digest_words (bs : list Z) : list Z :=
  let padded := pad bs in
  absorb (Nat.div (List.length padded) 64) initial_state padded.

Definition hexdigest (s : string) : string :=
  fold_right (fun w acc => hex_of 8 w acc) "" (digest_words (bytes_of_string s)).

End Sha256.

Arguments Sha256.hexdigest : simpl never.

(** ** json.dumps(..., sort_keys=True) *)

Module Json.

#[local] Set Warnings "-register-all".

Inductive value : Type :=
| Null
| Int (z : Z)
| Str (s : string)
| Arr (items : list value)
| Obj (fields : list (string * value)).

Definition quote_mark : string := String (ascii_of_nat 34) EmptyString.
Definition backslash : string := String (ascii_of_nat 92) EmptyString.

(** ensure_ascii: everything outside space..tilde is escaped. *)
Definition escape_char (c : ascii) : string :=
  let n := Z.of_nat (nat_of_ascii c) in
  if n =? 34 then backslash +:+ quote_mark
  else if n =? 92 then backslash +:+ backslash
  else if n =? 10 then backslash +:+ "n"
  else if n =? 13 then backslash +:+ "r"
  else if n =? 9 then backslash +:+ "t"
  else if n =? 8 then backslash +:+ "b"
  else if n =? 12 then backslash +:+ "f"
  else if (32 <=? n) && (n <=? 126) then String c EmptyString
  else backslash +:+ "u" +:+ Sha256.hex_of 4 n "".

Fixpoint escape (s : string) : string :=
  match s with
  | EmptyString => ""
  | String c rest => escape_char c +:+ escape rest
  end.

Definition quote (s : string) : string := quote_mark +:+ escape s +:+ quote_mark.

Definition int_text (z : Z) : string := NilZero.string_of_int (Z.to_int z).

Fixpoint join (sep : string) (parts : list string) : string :=
  match parts with
  | [] => ""
  | [p] => p
  | p :: rest => p +:+ sep +:+ join sep rest
  end.

(** sort_keys=True: members ordered by key. *)
Fixpoint insert_member (kv : string * string) (l : list (string * string))
  : list (string * string) :=
  match l with
  | [] => [kv]
  | kv' :: rest =>
      if String.leb (fst kv) (fst kv') then kv :: l
      else kv' :: insert_member kv rest
  end.

Definition sort_members (l : list (string * string)) : list (string * string) :=
  fold_right insert_member [] l.

Fixpoint dumps (v : value) : string :=
  match v with
  | Null => "null"
  | Int z => int_text z
  | Str s => quote s
  | Arr items => "[" +:+ join ", " (map dumps items) +:+ "]"
  | Obj fields =>
      let rendered := map (fun kv => (fst kv, dumps (snd kv))) fields in
      "{" +:+ join ", " (map (fun kv => quote (fst kv) +:+ ": " +:+ snd kv)
                             (sort_members rendered)) +:+ "}"
  end.

End Json.

(** ** class Transaction *)

Module Transaction.

Record t : Type := Build
  { sender : option string;   (* None for a mining reward *)
    recipient : string;
    amount : Z;
    timestamp : Z }.

Definition to_dict (tx : t) : Json.value :=
  Json.Obj [ ("sender", match sender tx with
                        | Some s => Json.Str s
                        | None => Json.Null
                        end);
             ("recipient", Json.Str (recipient tx));
             ("amount", Json.Int (amount tx));
             ("timestamp", Json.Int (timestamp tx)) ].

End Transaction.

(** One entry of the [chain] list of a peer's answer. *)
Module BlockData.
Record t : Type := Build
  { index : Z;
    transactions : list Transaction.t;
    timestamp : Z;
    previous_hash : string;
    nonce : Z;
    hash : string }.
End BlockData.

(** ** class Block *)

Module Block.

Record t : Type := Build
  { index : Z;
    transactions : list Transaction.t;
    timestamp : Z;
    previous_hash : string;
    nonce : Z;
    _hash : option string }.

(** [Block(index, transactions, timestamp, previous_hash, nonce=0)] *)
Definition new (index : Z) (transactions : list Transaction.t) (timestamp : Z)
    (previous_hash : string) (nonce : Z) : t :=
  Build index transactions timestamp previous_hash nonce None.

Definition calculate_hash (b : t) : string :=
  let block_string :=
    Json.dumps (Json.Obj
      [ ("index", Json.Int (index b));
        ("transactions", Json.Arr (map Transaction.to_dict (transactions b)));
        ("timestamp", Json.Int (timestamp b));
        ("previous_hash", Json.Str (previous_hash b));
        ("nonce", Json.Int (nonce b)) ]) in
  Sha256.hexdigest block_string.

(** The [hash] property: the cached text when there is one, otherwise the
    freshly calculated hash (which the getter then stores). *)
Definition hash (b : t) : string :=
  match _hash b with
  | Some h => h
  | None => calculate_hash b
  end.

Definition set_hash (h : option string) (b : t) : t :=
  Build (index b) (transactions b) (timestamp b) (previous_hash b) (nonce b) h.

Definition set_nonce (n : Z) (b : t) : t :=
  Build (index b) (transactions b) (timestamp b) (previous_hash b) n (_hash b).

(** The block as the getter leaves it: the cache is filled. *)
Definition cached (b : t) : t := set_hash (Some (hash b)) b.

(** [to_dict], as the mapping reads once decoded on the other side. *)
Definition to_dict (b : t) : BlockData.t :=
  BlockData.Build (index b) (transactions b) (timestamp b) (previous_hash b)
    (nonce b) (hash b).

End Block.

(** ** Python idioms used by the ledger *)

(** [s * n] on text. *)
Fixpoint str_mul (s : string) (n : nat) : string :=
  match n with
  | O => ""
  | S k => s +:+ str_mul s k
  end.

(** [s[:n]] *)
Definition str_prefix (n : nat) (s : string) : string := String.substring 0 n s.

(** [o == s] where [o] may be [None]. *)
Definition opt_str_eqb (o : option string) (s : string) : bool :=
  match o with
  | Some x => String.eqb x s
  | None => false
  end.

(** Truth value of a text: non-empty. *)
Definition truthy (s : string) : bool :=
  match s with
  | EmptyString => false
  | String _ _ => true
  end.

Inductive exn : Type := IndexError | ValueError.

(** How a call ends: it returns, raises, or never leaves a loop (the fuel of
    the model ran out). *)
Inductive outcome (A : Type) : Type :=
| Return (a : A)
| Raise (e : exn)
| Diverge.
Arguments Return {A} a.
Arguments Raise {A} e.
Arguments Diverge {A}.

(** ** The environment: urlparse and requests.get *)

Record ParseResult : Type := { netloc : string; path : string }.

(** The decoded body of [GET /api/chain]. *)
Record ChainExport : Type := { export_chain : list BlockData.t; export_length : Z }.

Inductive fetch : Type :=
| RequestException
| Response (status_code : Z) (json : ChainExport).

(** ** class Blockchain *)

Module Blockchain.

Record t : Type := Build
  { chain : list Block.t;
    current_transactions : list Transaction.t;
    difficulty : nat;
    mining_reward : Z;
    nodes : gset string }.

Definition set_chain (c : list Block.t) (bc : t) : t :=
  Build c (current_transactions bc) (difficulty bc) (mining_reward bc) (nodes bc).

Definition set_current_transactions (p : list Transaction.t) (bc : t) : t :=
  Build (chain bc) p (difficulty bc) (mining_reward bc) (nodes bc).

Definition set_nodes (n : gset string) (bc : t) : t :=
  Build (chain bc) (current_transactions bc) (difficulty bc) (mining_reward bc) n.

Definition create_genesis_block (now : Z) (bc : t) : t :=
  let genesis_block := Block.new 0 [] now "0" 0 in
  let genesis_block :=
    Block.set_hash (Some (Block.calculate_hash genesis_block)) genesis_block in
  set_chain (chain bc ++ [genesis_block]) bc.

(** [Blockchain()], constructed when the clock reads [now]. *)
Definition init (now : Z) : t :=
  create_genesis_block now (Build [] [] 4 10 ∅).

Definition get_latest_block (bc : t) : outcome Block.t :=
  match last (chain bc) with
  | Some b => Return b
  | None => Raise IndexError
  end.

(** The transaction is appended before the tip is read. *)
Definition add_transaction (sender : option string) (recipient : string)
    (amount : Z) (now : Z) (bc : t) : outcome Z * t :=
  let transaction := Transaction.Build sender recipient amount now in
  let bc := set_current_transactions (current_transactions bc ++ [transaction]) bc in
  match get_latest_block bc with
  | Return b => (Return (Block.index b + 1), bc)
  | Raise e => (Raise e, bc)
  | Diverge => (Diverge, bc)
  end.

(** The proof-of-work loop; each unit of fuel pays for one test of the
    loop condition. *)
Fixpoint mine_block (fuel : nat) (bc : t) (block : Block.t) : option Block.t :=
  let target := str_mul "0" (difficulty bc) in
  match fuel with
  | O => None
  | S fuel' =>
      let block := Block.cached block in
      if negb (String.eqb (str_prefix (difficulty bc) (Block.hash block)) target)
      then mine_block fuel' bc
             (Block.set_hash None (Block.set_nonce (Block.nonce block + 1) block))
      else Some block
  end.

Definition mine_pending_transactions (fuel : nat) (mining_reward_address : string)
    (reward_time block_time : Z) (bc : t) : outcome Block.t * t :=
  let reward_transaction :=
    Transaction.Build None mining_reward_address (mining_reward bc) reward_time in
  let bc :=
    set_current_transactions (current_transactions bc ++ [reward_transaction]) bc in
  match get_latest_block bc with
  | Return latest =>
      let block :=
        Block.new (Z.of_nat (length (chain bc))) (current_transactions bc)
                  block_time (Block.hash latest) 0 in
      match mine_block fuel bc block with
      | Some block =>
          (Return block,
           set_current_transactions [] (set_chain (chain bc ++ [block]) bc))
      | None => (Diverge, bc)
      end
  | Raise e => (Raise e, bc)
  | Diverge => (Diverge, bc)
  end.

(** The three tests of the loop body of [is_chain_valid]. *)
Definition block_ok (difficulty : nat) (previous_block current_block : Block.t)
  : bool :=
  if negb (String.eqb (Block.hash current_block)
                      (Block.calculate_hash current_block)) then false
  else if negb (String.eqb (Block.previous_hash current_block)
                           (Block.hash previous_block)) then false
  else if negb (String.eqb (str_prefix difficulty (Block.hash current_block))
                           (str_mul "0" difficulty)) then false
  else true.

(** [for i in range(...)] over [chain]; a lookup cannot miss for the
    indices the range produces. *)
Fixpoint is_chain_valid_loop (difficulty : nat) (chain : list Block.t)
    (range : list nat) : bool :=
  match range with
  | [] => true
  | i :: range' =>
      match chain !! i, chain !! (i - 1)%nat with
      | Some current_block, Some previous_block =>
          if block_ok difficulty previous_block current_block
          then is_chain_valid_loop difficulty chain range'
          else false
      | _, _ => false
      end
  end.

Definition is_chain_valid (bc : t) (chain : option (list Block.t)) : bool :=
  let chain := match chain with
               | None => Blockchain.chain bc
               | Some c => c
               end in
  is_chain_valid_loop (difficulty bc) chain (seq 1 (length chain - 1)).

Definition get_balance (address : string) (bc : t) : Z :=
  fold_left
    (fun balance block =>
       fold_left
         (fun balance transaction =>
            let balance :=
              if opt_str_eqb (Transaction.sender transaction) address
              then balance - Transaction.amount transaction
              else balance in
            if String.eqb (Transaction.recipient transaction) address
            then balance + Transaction.amount transaction
            else balance)
         (Block.transactions block) balance)
    (chain bc) 0.

Definition register_node (urlparse : string -> ParseResult) (address : string)
    (bc : t) : outcome unit * t :=
  let parsed_url := urlparse address in
  if truthy (netloc parsed_url)
  then (Return tt, set_nodes ({[ netloc parsed_url ]} ∪ nodes bc) bc)
  else if truthy (path parsed_url)
  then (Return tt, set_nodes ({[ path parsed_url ]} ∪ nodes bc) bc)
  else (Raise ValueError, bc).

(** The rebuilding of [Block] objects from a peer's answer. *)
Definition chain_objects_of (chain : list BlockData.t) : list Block.t :=
  map (fun block_data =>
         Block.set_hash (Some (BlockData.hash block_data))
           (Block.new (BlockData.index block_data)
                      (BlockData.transactions block_data)
                      (BlockData.timestamp block_data)
                      (BlockData.previous_hash block_data)
                      (BlockData.nonce block_data)))
      chain.

(** The address the chain of [node] is fetched from. *)
Definition chain_url (node : string) : string :=
  "http://" +:+ node +:+ "/api/chain".

(** One turn of the loop over the peers; the accumulator is
    [(new_chain, max_length)]. *)
Definition resolve_step (requests_get : string -> fetch) (bc : t)
    (acc : option (list Block.t) * Z) (node : string)
  : option (list Block.t) * Z :=
  match requests_get (chain_url node) with
  | RequestException => acc
  | Response status_code data =>
      if status_code =? 200 then
        let length := export_length data in
        let chain_objects := chain_objects_of (export_chain data) in
        if (length >? snd acc) && is_chain_valid bc (Some chain_objects)
        then (Some chain_objects, length)
        else acc
      else acc
  end.

(** [resolve_conflicts] with the peers visited in the given order. *)
Definition resolve_conflicts_in (order : list string)
    (requests_get : string -> fetch) (bc : t) : bool * t :=
  let max_length := Z.of_nat (length (chain bc)) in
  match fst (fold_left (resolve_step requests_get bc) order (None, max_length)) with
  | Some (b :: rest) => (true, set_chain (b :: rest) bc)
  | _ => (false, bc)
  end.

Definition resolve_conflicts (requests_get : string -> fetch) (bc : t)
  : bool * t :=
  resolve_conflicts_in (elements (nodes bc)) requests_get bc.

End Blockchain.

(** ** [get_balance] for any arithmetic

    [get_balance] adds and subtracts whatever numbers the transactions
    carry: [Blockchain.get_balance] is the loop at Python ints, and with the
    floats the routes store, the same loop runs in binary64.  Here it is
    over the three fields it reads of a transaction, a block being the list
    of its transactions. *)

Module Amounts.

Record entry (A : Type) : Type := Entry
  { sender : option string;
    recipient : string;
    amount : A }.
Arguments Entry {A} sender recipient amount.
Arguments sender {A} e.
Arguments recipient {A} e.
Arguments amount {A} e.

Section Loop.

Context {A : Type}.
Variables (zero : A) (add sub : A -> A -> A).

(** The body of the inner loop. *)
Definition step (address : string) (balance : A) (transaction : entry A) : A :=
  let balance :=
    if opt_str_eqb (sender transaction) address
    then sub balance (amount transaction)
    else balance in
  if String.eqb (recipient transaction) address
  then add balance (amount transaction)
  else balance.

Definition get_balance (address : string) (chain : list (list (entry A))) : A :=
  fold_left
    (fun balance block => fold_left (step address) block balance)
    chain zero.

End Loop.

(** The loop in binary64; the [int] 0 it starts from becomes 0.0 at the
    first float it meets. *)
Definition get_balance_binary64 (address : string)
    (chain : list (list (entry float))) : float :=
  get_balance 0%float PrimFloat.add PrimFloat.sub address chain.

End Amounts.

(** What [get_balance] reads of a ledger's chain. *)
Definition entry_of (tx : Transaction.t) : Amounts.entry Z :=
  Amounts.Entry (Transaction.sender tx) (Transaction.recipient tx)
    (Transaction.amount tx).

Definition entries_of (chain : list Block.t) : list (list (Amounts.entry Z)) :=
  map (fun block => map entry_of (Block.transactions block)) chain.

(** ** The route handlers in front of the ledger

    The handlers act on the global [blockchain]; it is threaded through. *)

Module Routes.

(** The decoded request body of [POST /api/transactions]; [None] is a
    missing key, and [v_amount] the number [float(values['amount'])] gives.
    The handler does not catch what [float] raises on an amount it cannot
    convert; such bodies are not among these. *)
Record TransactionValues : Type :=
  { v_sender : option string;
    v_recipient : option string;
    v_amount : option Z }.

Inductive body : Type :=
| Error (error : string)
| TransactionAdded (index : Z)
| BlockForged (block : Block.t).

(** A reply is a body and an HTTP status. *)
Definition reply : Type := body * Z.

Definition api_transactions_post (values : TransactionValues) (now : Z)
    (blockchain : Blockchain.t) : outcome reply * Blockchain.t :=
  match v_sender values, v_recipient values, v_amount values with
  | Some sender, Some recipient, Some amount =>
      if amount <=? 0 then
        (Return (Error "Amount must be positive", 400), blockchain)
      else if String.eqb sender recipient then
        (Return (Error "Sender and recipient cannot be the same", 400), blockchain)
      else if negb (String.eqb sender "Mining Reward")
              && (Blockchain.get_balance sender blockchain <? amount) then
        (Return (Error ("Insufficient balance. Available: "
                        +:+ Json.int_text (Blockchain.get_balance sender blockchain)),
                 400), blockchain)
      else
        match Blockchain.add_transaction (Some sender) recipient amount now
                blockchain with
        | (Return index, blockchain) => (Return (TransactionAdded index, 201), blockchain)
        | (Raise e, blockchain) => (Raise e, blockchain)
        | (Diverge, blockchain) => (Diverge, blockchain)
        end
  | _, _, _ => (Return (Error "Missing required fields", 400), blockchain)
  end.

Definition api_mine (fuel : nat) (node_identifier : string)
    (reward_time block_time : Z) (blockchain : Blockchain.t)
  : outcome reply * Blockchain.t :=
  match Blockchain.current_transactions blockchain with
  | [] => (Return (Error "No transactions to mine", 400), blockchain)
  | _ :: _ =>
      match Blockchain.mine_pending_transactions fuel node_identifier
              reward_time block_time blockchain with
      | (Return block, blockchain) => (Return (BlockForged block, 200), blockchain)
      | (Raise e, blockchain) => (Raise e, blockchain)
      | (Diverge, blockchain) => (Diverge, blockchain)
      end
  end.

(** [flash(message, category)] of the form handlers. *)
Inductive flash : Type := Flash (message category : string).

Definition exn_text (e : exn) : string :=
  match e with
  | IndexError => "list index out of range"
  | ValueError => "Invalid URL"
  end.

(** The form handler [create_transaction], the amount already parsed. *)
Definition create_transaction (sender recipient : string) (amount : Z) (now : Z)
    (blockchain : Blockchain.t) : outcome flash * Blockchain.t :=
  if amount <=? 0 then
    (Return (Flash "Amount must be positive" "error"), blockchain)
  else if String.eqb sender recipient then
    (Return (Flash "Sender and recipient cannot be the same" "error"), blockchain)
  else if negb (String.eqb sender "Mining Reward")
          && (Blockchain.get_balance sender blockchain <? amount) then
    (Return (Flash ("Insufficient balance. Available: "
                    +:+ Json.int_text (Blockchain.get_balance sender blockchain))
                   "error"), blockchain)
  else
    match Blockchain.add_transaction (Some sender) recipient amount now
            blockchain with
    | (Return _, blockchain) =>
        (Return (Flash ("Transaction created: " +:+ sender +:+ " → " +:+ recipient
                        +:+ " (" +:+ Json.int_text amount +:+ " coins)")
                       "success"), blockchain)
    | (Raise ValueError, blockchain) =>
        (Return (Flash "Invalid amount" "error"), blockchain)
    | (Raise e, blockchain) => (Raise e, blockchain)
    | (Diverge, blockchain) => (Diverge, blockchain)
    end.

(** The form handler [mine_block]. *)
Definition mine_block (fuel : nat) (node_identifier : string)
    (reward_time block_time : Z) (blockchain : Blockchain.t)
  : outcome flash * Blockchain.t :=
  match Blockchain.current_transactions blockchain with
  | [] => (Return (Flash "No transactions to mine" "error"), blockchain)
  | _ :: _ =>
      match Blockchain.mine_pending_transactions fuel node_identifier
              reward_time block_time blockchain with
      | (Return block, blockchain) =>
          (Return (Flash ("Block #" +:+ Json.int_text (Block.index block)
                          +:+ " mined successfully! Nonce: "
                          +:+ Json.int_text (Block.nonce block))
                         "success"), blockchain)
      | (Raise e, blockchain) =>
          (Return (Flash ("Mining failed: " +:+ exn_text e) "error"), blockchain)
      | (Diverge, blockchain) => (Diverge, blockchain)
      end
  end.

(** [GET /api/chain] *)
Definition api_chain (blockchain : Blockchain.t) : ChainExport :=
  {| export_chain := map Block.to_dict (Blockchain.chain blockchain);
     export_length := Z.of_nat (length (Blockchain.chain blockchain)) |}.

Inductive nodes_body : Type :=
| NodesError (error : string)
| RegistrationComplete (successful_nodes failed_nodes total_nodes : list string).

(** The loop of [POST /api/nodes]; a [ValueError] of [register_node] is not
    caught and ends the request. *)
Fixpoint api_nodes_loop (urlparse : string -> ParseResult)
    (requests_get : string -> fetch) (nodes : list string)
    (successful_nodes failed_nodes : list string) (blockchain : Blockchain.t)
  : outcome (list string * list string) * Blockchain.t :=
  match nodes with
  | [] => (Return (successful_nodes, failed_nodes), blockchain)
  | node :: rest =>
      match requests_get (node +:+ "/api/chain") with
      | Response status_code _ =>
          if status_code =? 200 then
            match Blockchain.register_node urlparse node blockchain with
            | (Return _, blockchain) =>
                api_nodes_loop urlparse requests_get rest
                  (successful_nodes ++ [node]) failed_nodes blockchain
            | (Raise e, blockchain) => (Raise e, blockchain)
            | (Diverge, blockchain) => (Diverge, blockchain)
            end
          else
            api_nodes_loop urlparse requests_get rest
              successful_nodes (failed_nodes ++ [node]) blockchain
      | RequestException =>
          api_nodes_loop urlparse requests_get rest
            successful_nodes (failed_nodes ++ [node]) blockchain
      end
  end.

(** [POST /api/nodes]; [nodes] is [values.get('nodes')]. *)
Definition api_nodes_post (urlparse : string -> ParseResult)
    (requests_get : string -> fetch) (nodes : option (list string))
    (blockchain : Blockchain.t) : outcome (nodes_body * Z) * Blockchain.t :=
  match nodes with
  | None =>
      (Return (NodesError "Please supply a valid list of nodes", 400), blockchain)
  | Some nodes =>
      match api_nodes_loop urlparse requests_get nodes [] [] blockchain with
      | (Return (successful_nodes, failed_nodes), blockchain) =>
          (Return (RegistrationComplete successful_nodes failed_nodes
                     (elements (Blockchain.nodes blockchain)), 201), blockchain)
      | (Raise e, blockchain) => (Raise e, blockchain)
      | (Diverge, blockchain) => (Diverge, blockchain)
      end
  end.

(** The form handler [add_peer]; [peer_url] is [request.form.get('peer_url')]. *)
Definition add_peer (urlparse : string -> ParseResult)
    (requests_get : string -> fetch) (peer_url : option string)
    (blockchain : Blockchain.t) : outcome flash * Blockchain.t :=
  match peer_url with
  | None | Some EmptyString =>
      (Return (Flash "Please provide a peer URL" "error"), blockchain)
  | Some peer_url =>
      match requests_get (peer_url +:+ "/api/chain") with
      | Response status_code _ =>
          if status_code =? 200 then
            match Blockchain.register_node urlparse peer_url blockchain with
            | (Return _, blockchain) =>
                (Return (Flash ("Peer added successfully: " +:+ peer_url) "success"),
                 blockchain)
            | (Raise e, blockchain) => (Raise e, blockchain)
            | (Diverge, blockchain) => (Diverge, blockchain)
            end
          else
            (Return (Flash ("Failed to connect to peer: " +:+ peer_url) "error"),
             blockchain)
      | RequestException =>
          (Return (Flash ("Cannot reach peer: " +:+ peer_url) "error"), blockchain)
      end
  end.

Inductive consensus_body : Type :=
| ChainReplaced (new_length blocks_added : Z)
| ChainAuthoritative (current_length peers_checked : Z).

(** [POST /api/consensus] *)
Definition api_consensus (requests_get : string -> fetch)
    (blockchain : Blockchain.t) : (consensus_body * Z) * Blockchain.t :=
  let initial_length := Z.of_nat (length (Blockchain.chain blockchain)) in
  let '(replaced, blockchain) :=
    Blockchain.resolve_conflicts requests_get blockchain in
  let final_length := Z.of_nat (length (Blockchain.chain blockchain)) in
  if replaced
  then ((ChainReplaced final_length (final_length - initial_length), 200), blockchain)
  else ((ChainAuthoritative final_length
           (Z.of_nat (size (Blockchain.nodes blockchain))), 200), blockchain).

End Routes.

(** ** The states a ledger can be in

    One step is one call of a method of [Blockchain]; the reading methods
    leave the ledger as it is.  Whatever way a call ends, the ledger it
    leaves behind counts. *)

Inductive step (bc : Blockchain.t) : Blockchain.t -> Prop :=
| step_add_transaction sender recipient amount now :
    step bc (snd (Blockchain.add_transaction sender recipient amount now bc))
| step_mine_pending_transactions fuel address reward_time block_time :
    step bc (snd (Blockchain.mine_pending_transactions fuel address
                    reward_time block_time bc))
| step_is_chain_valid chain (verdict : bool) :
    Blockchain.is_chain_valid bc chain = verdict -> step bc bc
| step_get_balance address (balance : Z) :
    Blockchain.get_balance address bc = balance -> step bc bc
| step_register_node urlparse address :
    step bc (snd (Blockchain.register_node urlparse address bc))
| step_resolve_conflicts order requests_get :
    step bc (snd (Blockchain.resolve_conflicts_in order requests_get bc)).

Inductive reachable : Blockchain.t -> Prop :=
| reachable_init now : reachable (Blockchain.init now)
| reachable_step bc bc' : reachable bc -> step bc bc' -> reachable bc'.

(** Ledgers built without consensus: construction, then submissions,
    mining and peer registration only. *)
Inductive mined_locally : Blockchain.t -> Prop :=
| local_init now : mined_locally (Blockchain.init now)
| local_add_transaction bc sender recipient amount now :
    mined_locally bc ->
    mined_locally (snd (Blockchain.add_transaction sender recipient amount now bc))
| local_mine_pending_transactions bc fuel address reward_time block_time :
    mined_locally bc ->
    mined_locally (snd (Blockchain.mine_pending_transactions fuel address
                          reward_time block_time bc))
| local_register_node bc urlparse address :
    mined_locally bc ->
    mined_locally (snd (Blockchain.register_node urlparse address bc)).

(** ** Properties the statements below speak of *)

(** The number of leading ["0"] characters of a hash text. *)
Fixpoint leading_zeros (s : string) : nat :=
  match s with
  | String c rest =>
      if Ascii.eqb c "0"%char then S (leading_zeros rest) else O
  | EmptyString => O
  end.

(** The chain a call of [is_chain_valid] walks over. *)
Definition chain_argument (bc : Blockchain.t) (chain : option (list Block.t))
  : list Block.t :=
  match chain with
  | None => Blockchain.chain bc
  | Some c => c
  end.

(** [prev] and [cur] sit at positions [i] and [i + 1]. *)
Definition adjacent (chain : list Block.t) (i : nat) (prev cur : Block.t) : Prop :=
  chain !! i = Some prev /\ chain !! S i = Some cur.

(** The three conditions on hashes of an adjacent pair. *)
Record hash_invariants (difficulty : nat) (prev cur : Block.t) : Prop :=
  { linked : Block.previous_hash cur = Block.hash prev;
    sealed : Block.hash cur = Block.calculate_hash cur;
    worked : (difficulty <= leading_zeros (Block.hash cur))%nat }.

Definition index_consecutive (prev cur : Block.t) : Prop :=
  Block.index cur = Block.index prev + 1.

(** All four invariants of a chain, on every adjacent pair. *)
Definition chain_invariants (difficulty : nat) (chain : list Block.t) : Prop :=
  forall i prev cur,
    adjacent chain i prev cur ->
    index_consecutive prev cur /\ hash_invariants difficulty prev cur.

(** The same without the condition on indices. *)
Definition hash_chain_invariants (difficulty : nat) (chain : list Block.t) : Prop :=
  forall i prev cur,
    adjacent chain i prev cur -> hash_invariants difficulty prev cur.

(** The answer of [node] passes the test of the loop of [resolve_conflicts]
    when the best length so far is [best]. *)
Definition qualifies (requests_get : string -> fetch) (bc : Blockchain.t)
    (best : Z) (node : string) (data : ChainExport) : Prop :=
  requests_get (Blockchain.chain_url node) = Response 200 data
  /\ export_length data > best
  /\ Blockchain.is_chain_valid bc
       (Some (Blockchain.chain_objects_of (export_chain data))) = true.

(** The transactions sealed in a chain, in chain order. *)
Definition sealed_transactions (chain : list Block.t) : list Transaction.t :=
  concat (map Block.transactions chain).

Definition sum_amounts (txs : list Transaction.t) : Z :=
  fold_right (fun tx acc => Transaction.amount tx + acc) 0 txs.

(** R: what the sealed transactions pay to [address]. *)
Definition received (address : string) (chain : list Block.t) : Z :=
  sum_amounts
    (List.filter (fun tx => String.eqb (Transaction.recipient tx) address)
                 (sealed_transactions chain)).

(** S: what the sealed transactions take from [address]. *)
Definition sent (address : string) (chain : list Block.t) : Z :=
  sum_amounts
    (List.filter (fun tx => opt_str_eqb (Transaction.sender tx) address)
                 (sealed_transactions chain)).

(** What a list of transactions adds to the balance of [address]. *)
Definition net_amount (address : string) (txs : list Transaction.t) : Z :=
  sum_amounts
    (List.filter (fun tx => String.eqb (Transaction.recipient tx) address) txs)
  - sum_amounts
      (List.filter (fun tx => opt_str_eqb (Transaction.sender tx) address) txs).


(** The name under which [register_node] files a parsed address. *)
Definition peer_name (parsed_url : ParseResult) : string :=
  if truthy (netloc parsed_url) then netloc parsed_url else path parsed_url.

(** The test request of [api_nodes] and [add_peer] was answered with 200. *)
Definition answered_ok (requests_get : string -> fetch) (node : string) : bool :=
  match requests_get (node +:+ "/api/chain") with
  | Response status_code _ => status_code =? 200
  | RequestException => false
  end.

(** The sum of the balances of a list of addresses. *)
Definition total_balance (addresses : list string) (bc : Blockchain.t) : Z :=
  fold_right (fun a acc => Blockchain.get_balance a bc + acc) 0 addresses.

(** What the sealed transactions without sender have issued. *)
Definition issued (chain : list Block.t) : Z :=
  sum_amounts
    (List.filter (fun tx => match Transaction.sender tx with
                            | None => true
                            | Some _ => false
                            end)
                 (sealed_transactions chain)).

(** Every party of a sealed transaction is in the list. *)
Definition covers (addresses : list string) (chain : list Block.t) : Prop :=
  Forall (fun tx =>
            In (Transaction.recipient tx) addresses
            /\ forall s, Transaction.sender tx = Some s -> In s addresses)
         (sealed_transactions chain).

(** What every call keeps: the two constants of the constructor and the
    validity of the ledger's own chain. *)
Definition ledger_invariant (bc : Blockchain.t) : Prop :=
  Blockchain.difficulty bc = 4%nat
  /\ Blockchain.mining_reward bc = 10
  /\ Blockchain.chain bc <> []
  /\ hash_chain_invariants (Blockchain.difficulty bc) (Blockchain.chain bc).

(** ** Whole numbers in binary64

    The float that holds a whole number, as [float(amount)] makes it of a
    whole amount (below 2^53 every whole number has one), and the entries
    of a chain with their amounts so held. *)

Fixpoint whole_pos (p : positive) : float :=
  match p with
  | xH => 1%float
  | xO p => (2 * whole_pos p)%float
  | xI p => (2 * whole_pos p + 1)%float
  end.

Definition whole (z : Z) : float :=
  match z with
  | Z0 => 0%float
  | Zpos p => whole_pos p
  | Zneg p => (- whole_pos p)%float
  end.

Definition entry_as_binary64 (e : Amounts.entry Z) : Amounts.entry float :=
  Amounts.Entry (Amounts.sender e) (Amounts.recipient e) (whole (Amounts.amount e)).

Definition as_binary64 (chain : list (list (Amounts.entry Z)))
  : list (list (Amounts.entry float)) :=
  map (map entry_as_binary64) chain.

(** Binary64 adds and subtracts the whole numbers of [-bound .. bound]
    without rounding, as far as the result is in that range. *)
Definition exact_upto (bound : Z) : Prop :=
  forall x y : Z,
    Z.abs x <= bound -> Z.abs y <= bound ->
    (Z.abs (x + y) <= bound -> PrimFloat.add (whole x) (whole y) = whole (x + y))
    /\ (Z.abs (x - y) <= bound -> PrimFloat.sub (whole x) (whole y) = whole (x - y)).

Definition whole_range (bound : Z) : list Z :=
  map (fun n => Z.of_nat n - bound) (seq 0 (Z.to_nat (2 * bound + 1))).

(** The same, tried on every pair. *)
Definition exact_upto_check (bound : Z) : bool :=
  forallb
    (fun x =>
       forallb
         (fun y =>
            (negb (Z.abs (x + y) <=? bound)
             || PrimFloat.Leibniz.eqb (PrimFloat.add (whole x) (whole y))
                  (whole (x + y)))
            && (negb (Z.abs (x - y) <=? bound)
                || PrimFloat.Leibniz.eqb (PrimFloat.sub (whole x) (whole y))
                     (whole (x - y))))
         (whole_range bound))
    (whole_range bound).

(** The amounts and every value the loop of [get_balance] goes through,
    from [balance] on, are in [-bound .. bound]. *)
Fixpoint within (bound : Z) (address : string) (txs : list (Amounts.entry Z))
    (balance : Z) : bool :=
  (Z.abs balance <=? bound)
  && match txs with
     | [] => true
     | tx :: txs =>
         (Z.abs (Amounts.amount tx) <=? bound)
         && (Z.abs (if opt_str_eqb (Amounts.sender tx) address
                    then balance - Amounts.amount tx
                    else balance) <=? bound)
         && within bound address txs (Amounts.step Z.add Z.sub address balance tx)
     end.

(** ** Concrete ledgers

    A ledger constructed when the clock reads 1730000000, a peer, and
    answers that peer may give. *)

Definition our_genesis : Block.t :=
  Block.Build 0 [] 1730000000 "0" 0
    (Some "edb0e2be71691b9d80a8094f709e0ebb1224f54e47b3eae6b728af1e29b5b6e4").

(** The ledger [Blockchain.init 1730000000] builds. *)
Definition genesis_ledger : Blockchain.t :=
  Blockchain.Build [our_genesis] [] 4 10 ∅.

Definition urlparse_peer (address : string) : ParseResult :=
  {| netloc := "peer1:5000"; path := "" |}.

Definition ledger_with_peer : Blockchain.t :=
  snd (Blockchain.register_node urlparse_peer "http://peer1:5000" genesis_ledger).

(** The peer's view of our genesis block. *)
Definition our_genesis_data : BlockData.t :=
  BlockData.Build 0 [] 1730000000 "0" 0
    "edb0e2be71691b9d80a8094f709e0ebb1224f54e47b3eae6b728af1e29b5b6e4".

(** A block sealed on top of it, with index 7 instead of 1. *)
Definition gap_block_data : BlockData.t :=
  BlockData.Build 7 [] 1730000100
    "edb0e2be71691b9d80a8094f709e0ebb1224f54e47b3eae6b728af1e29b5b6e4" 144880
    "00000f60467fff40afb6cabc9df12b7a2a049785a5f5f1e64cb5bd457e91db70".

Definition gap_chain : list Block.t :=
  Blockchain.chain_objects_of [our_genesis_data; gap_block_data].

(** The genesis block of a ledger constructed one second later. *)
Definition foreign_genesis_data : BlockData.t :=
  BlockData.Build 0 [] 1730000001 "0" 0
    "85a82c38ff00bbe1abbaf06cfd3d2c6795f795a396c2adf715d568d4af639886".

Definition answer_with (data : ChainExport) (url : string) : fetch :=
  if String.eqb url "http://peer1:5000/api/chain" then Response 200 data
  else RequestException.

(** One block, announced as three. *)
Definition inflated_answer : ChainExport :=
  {| export_chain := [foreign_genesis_data]; export_length := 3 |}.

(** No block at all, announced as five. *)
Definition empty_answer : ChainExport :=
  {| export_chain := []; export_length := 5 |}.

(** The ledger after [A] has paid 5 to [B] ... *)
Definition paid_ledger : Blockchain.t :=
  Blockchain.Build [our_genesis]
    [Transaction.Build (Some "A") "B" 5 1730000060] 4 10 ∅.

(** ... and after [addr1] has mined at 1730023002. *)
Definition sealed_block : Block.t :=
  Block.Build 1
    [Transaction.Build (Some "A") "B" 5 1730000060;
     Transaction.Build None "addr1" 10 1730023002]
    1730023002
    "edb0e2be71691b9d80a8094f709e0ebb1224f54e47b3eae6b728af1e29b5b6e4" 3
    (Some "0000341f0f51032146367c7e8a7c84a35537fca4195cfdd6529f3742ffbeaa84").

Definition mined_ledger : Blockchain.t :=
  Blockchain.Build [our_genesis; sealed_block] [] 4 10 ∅.

Definition mined_ledger_with_peer : Blockchain.t :=
  Blockchain.set_nodes {[ "peer1:5000" ]} mined_ledger.

(** The block [node1] seals at 1730027286 on the genesis block alone. *)
Definition reward_only_block : Block.t :=
  Block.Build 1 [Transaction.Build None "node1" 10 1730027286] 1730027286
    "edb0e2be71691b9d80a8094f709e0ebb1224f54e47b3eae6b728af1e29b5b6e4" 3
    (Some "0000a860360b9dc34eb405df86b68e7a7111a7f4c5406cb3a67d0f73b56935c4").

(** A node with a pending payment and a peer, and the block [addr1] seals
    at 1730231989 once the peer's one-block chain has been adopted. *)
Definition paid_ledger_with_peer : Blockchain.t :=
  Blockchain.set_nodes {[ "peer1:5000" ]} paid_ledger.

Definition block_on_foreign_genesis : Block.t :=
  Block.Build 1
    [Transaction.Build (Some "A") "B" 5 1730000060;
     Transaction.Build None "addr1" 10 1730231989]
    1730231989
    "85a82c38ff00bbe1abbaf06cfd3d2c6795f795a396c2adf715d568d4af639886" 1
    (Some "0000851058eabf63ae9aaca174ba8c539b6a172777597eec7041509dcd8af0bd").

(** Payments from [A] to [B] as [POST /api/transactions] stores them, in
    two blocks, and [B] receiving and returning 1e16 before receiving 1. *)
Definition pays (amount : float) : Amounts.entry float :=
  Amounts.Entry (Some "A") "B" amount.

Definition two_payments : list (Amounts.entry float) :=
  [pays (2 / 10)%float; pays (1 / 10)%float].

Definition one_payment : list (Amounts.entry float) :=
  [pays (3 / 10)%float].

Definition large_then_small : list (list (Amounts.entry float)) :=
  [[Amounts.Entry (Some "A") "B" 10000000000000000%float;
    Amounts.Entry (Some "B") "A" 10000000000000000%float;
    Amounts.Entry (Some "A") "B" 1%float]].

(** ... and after [B] has paid 3 to [C] and [addr1] has mined once more, at
    1730041132. *)
Definition spent_block : Block.t :=
  Block.Build 2
    [Transaction.Build (Some "B") "C" 3 1730023060;
     Transaction.Build None "addr1" 10 1730041132]
    1730041132
    "0000341f0f51032146367c7e8a7c84a35537fca4195cfdd6529f3742ffbeaa84" 1
    (Some "000063edefaa0f7aab41e9b3d82fb3cef177f229bd54e74bc0f839cfb8061224").

Definition settled_ledger : Blockchain.t :=
  Blockchain.Build [our_genesis; sealed_block; spent_block] [] 4 10 ∅.

(** The ledger that has adopted the chain with indices 0 and 7. *)
Definition gap_ledger : Blockchain.t :=
  Blockchain.set_chain gap_chain genesis_ledger.

(** * Theorems *)

Example sha256_abc :
  Sha256.hexdigest "abc"
  = "ba7816bf8f01cfea414140de5dae2223b00361a396177a9cb410ff61f20015ad".
Proof. vm_compute. reflexivity. Qed.

(** A block whose text needs every kind of escape. *)
Example calculate_hash_escapes :
  Block.calculate_hash
    (Block.new 2
       [Transaction.Build (Some ("A" +:+ Json.backslash +:+ "x"))
          ("mi" +:+ Json.quote_mark +:+ "ner") (-10) 17;
        Transaction.Build None
          ("caf" +:+ String (ascii_of_nat 233) (String (ascii_of_nat 10) ""))
          0 0]
       1730000000 "0" 3)
  = "28cfa6b6b51c13e4f5672a255d2d46a5612516a7f5aa968ec794527386c2da8b".
Proof. vm_compute. reflexivity. Qed.

(** The concrete ledgers are what the code produces. *)

Example init_genesis_ledger : Blockchain.init 1730000000 = genesis_ledger.
Proof. vm_compute. reflexivity. Qed.

Example pay_genesis_ledger :
  Blockchain.add_transaction (Some "A") "B" 5 1730000060 genesis_ledger
  = (Return 1, paid_ledger).
Proof. reflexivity. Qed.

(** ** Text *)

Lemma prefix_zeros (d : nat) (h : string) :
  str_prefix d h = str_mul "0" d <-> (d <= leading_zeros h)%nat.
Proof.
  unfold str_prefix. revert h.
  induction d as [|d IH]; intros h.
  - split; [lia|]. intros _. destruct h; reflexivity.
  - destruct h as [|c h]; simpl.
    + split; [discriminate | lia].
    + destruct (Ascii.eqb_spec c "0"%char) as [->|Hc].
      * rewrite <- Nat.succ_le_mono, <- IH.
        split; [intros H; injection H; auto | intros ->; reflexivity].
      * split; [intros H; injection H; intros; contradiction | lia].
Qed.

Lemma prefix_test (d : nat) (h : string) :
  String.eqb (str_prefix d h) (str_mul "0" d) = true
  <-> (d <= leading_zeros h)%nat.
Proof. rewrite String.eqb_eq. apply prefix_zeros. Qed.

(** ** Validation *)

(** The one adjacent pair of a chain of two blocks. *)
Ltac only_pair Hadj :=
  let Hp := fresh "Hp" in
  let Hc := fresh "Hc" in
  destruct Hadj as [Hp Hc];
  match type of Hp with
  | _ !! ?i = _ =>
      destruct i as [|[|?]]; simpl in Hp, Hc; try discriminate;
      injection Hp as <-; injection Hc as <-
  end.

Lemma block_ok_spec (d : nat) (prev cur : Block.t) :
  Blockchain.block_ok d prev cur = true <-> hash_invariants d prev cur.
Proof.
  unfold Blockchain.block_ok.
  destruct (String.eqb_spec (Block.hash cur) (Block.calculate_hash cur)) as [Hs|Hs];
    simpl.
  2: { split; [discriminate | intros []; contradiction]. }
  destruct (String.eqb_spec (Block.previous_hash cur) (Block.hash prev)) as [Hl|Hl];
    simpl.
  2: { split; [discriminate | intros []; contradiction]. }
  destruct (String.eqb (str_prefix d (Block.hash cur)) (str_mul "0" d)) eqn:Hw;
    simpl.
  - apply prefix_test in Hw. split; [intros _; constructor; assumption | reflexivity].
  - split; [discriminate|]. intros [_ _ Hz].
    apply prefix_test in Hz. congruence.
Qed.

Lemma loop_spec (d : nat) (chain : list Block.t) (range : list nat) :
  Forall (fun i => 1 <= i < length chain)%nat range ->
  Blockchain.is_chain_valid_loop d chain range = true
  <-> (forall i prev cur, In i range ->
         chain !! (i - 1)%nat = Some prev -> chain !! i = Some cur ->
         hash_invariants d prev cur).
Proof.
  induction 1 as [|i range [Hlo Hhi] Hrange IH]; simpl.
  - split; [intros _ i prev cur [] | reflexivity].
  - destruct (lookup_lt_is_Some_2 chain i Hhi) as [cur Hcur].
    destruct (lookup_lt_is_Some_2 chain (i - 1)%nat ltac:(lia)) as [prev Hprev].
    rewrite Hcur, Hprev.
    destruct (Blockchain.block_ok d prev cur) eqn:Hok.
    + rewrite IH. apply block_ok_spec in Hok.
      split.
      * intros Hall j p c [<-|Hj] Hp Hc; [congruence | eauto].
      * intros Hall j p c Hj. apply Hall. right. exact Hj.
    + split; [discriminate|]. intros Hall.
      assert (Hinv : hash_invariants d prev cur) by (apply (Hall i); auto).
      apply block_ok_spec in Hinv. congruence.
Qed.

Lemma range_in_bounds (chain : list Block.t) :
  Forall (fun i => 1 <= i < length chain)%nat (seq 1 (length chain - 1)).
Proof. apply List.Forall_forall. intros i Hi. apply in_seq in Hi. lia. Qed.

Lemma is_chain_valid_spec (bc : Blockchain.t) (chain : option (list Block.t)) :
  Blockchain.is_chain_valid bc chain = true
  <-> hash_chain_invariants (Blockchain.difficulty bc) (chain_argument bc chain).
Proof.
  unfold Blockchain.is_chain_valid. fold (chain_argument bc chain).
  set (c := chain_argument bc chain).
  rewrite (loop_spec _ _ _ (range_in_bounds c)).
  unfold hash_chain_invariants, adjacent. split.
  - intros Hall i prev cur [Hp Hc]. apply (Hall (S i)).
    + apply in_seq. apply lookup_lt_Some in Hc. lia.
    + replace (S i - 1)%nat with i by lia. exact Hp.
    + exact Hc.
  - intros Hall i prev cur Hi Hp Hc. apply in_seq in Hi.
    apply (Hall (i - 1)%nat). split; [exact Hp|].
    replace (S (i - 1)) with i by lia. exact Hc.
Qed.

(** C10: a chain of at most one block, the empty chain included, is valid
    whatever that block holds: the loop body never runs. *)
Theorem short_chain_valid (bc : Blockchain.t) (chain : option (list Block.t)) :
  (length (chain_argument bc chain) <= 1)%nat ->
  Blockchain.is_chain_valid bc chain = true.
Proof.
  intros Hlen. unfold Blockchain.is_chain_valid. fold (chain_argument bc chain).
  replace (length (chain_argument bc chain) - 1)%nat with 0%nat by lia.
  reflexivity.
Qed.

Lemma short_chain_valid_witness :
  (length (chain_argument genesis_ledger
             (Some [Block.Build 42 [] 0 "no such hash" (-1) (Some "zz")])) <= 1)%nat
  /\ Blockchain.is_chain_valid genesis_ledger
       (Some [Block.Build 42 [] 0 "no such hash" (-1) (Some "zz")]) = true
  /\ Blockchain.is_chain_valid genesis_ledger (Some []) = true.
Proof.
  split; [simpl; lia|]. split.
  - apply short_chain_valid. simpl. lia.
  - apply short_chain_valid. simpl. lia.
Defined.

(** C1 (amended): [is_chain_valid] returns true exactly when every adjacent
    pair satisfies the three conditions on hashes: linkage, stored hash equal
    to the recomputed one, and at least [difficulty] leading zeros.  The
    indices are not compared; the four invariants together are sufficient,
    not necessary. *)
Theorem is_chain_valid_checks_hashes_only
    (bc : Blockchain.t) (chain : option (list Block.t)) :
  (Blockchain.is_chain_valid bc chain = true
   <-> hash_chain_invariants (Blockchain.difficulty bc) (chain_argument bc chain))
  /\ (chain_invariants (Blockchain.difficulty bc) (chain_argument bc chain) ->
      Blockchain.is_chain_valid bc chain = true).
Proof.
  split; [apply is_chain_valid_spec|].
  intros Hall. apply is_chain_valid_spec.
  intros i prev cur Hadj. apply (Hall i prev cur Hadj).
Qed.

(** C1 as stated fails: a received chain whose second block has index 7
    after index 0 satisfies the three conditions on hashes and is accepted. *)
Lemma is_chain_valid_accepts_index_gap :
  Blockchain.is_chain_valid genesis_ledger (Some gap_chain) = true
  /\ hash_chain_invariants (Blockchain.difficulty genesis_ledger) gap_chain
  /\ ~ chain_invariants (Blockchain.difficulty genesis_ledger) gap_chain.
Proof.
  assert (Hvalid : Blockchain.is_chain_valid genesis_ledger (Some gap_chain) = true)
    by (vm_compute; reflexivity).
  split; [exact Hvalid|]. split.
  - apply (is_chain_valid_spec genesis_ledger (Some gap_chain)). exact Hvalid.
  - intros Hall.
    destruct (Hall 0%nat _ _ (conj eq_refl eq_refl)) as [Hidx _].
    unfold index_consecutive in Hidx. simpl in Hidx. discriminate.
Qed.

Lemma is_chain_valid_checks_hashes_only_witness :
  chain_invariants (Blockchain.difficulty genesis_ledger) [our_genesis; sealed_block]
  /\ Blockchain.is_chain_valid genesis_ledger (Some [our_genesis; sealed_block])
     = true.
Proof.
  assert (H : chain_invariants (Blockchain.difficulty genesis_ledger)
                (chain_argument genesis_ledger (Some [our_genesis; sealed_block]))).
  { intros i prev cur Hadj. only_pair Hadj.
    split; [reflexivity|].
    constructor; vm_compute; [reflexivity | reflexivity | lia]. }
  split; [exact H|].
  exact (proj2 (is_chain_valid_checks_hashes_only genesis_ledger
                  (Some [our_genesis; sealed_block])) H).
Defined.

(** C9: nothing is checked on the block at position 0.  When every later
    block satisfies the conditions on its pair, the ledger's own chain and a
    received chain both validate, whatever the first block's hash looks
    like, and any block with the same hash text may stand in its place. *)
Theorem genesis_block_unchecked
    (bc : Blockchain.t) (g : Block.t) (rest : list Block.t) :
  hash_chain_invariants (Blockchain.difficulty bc) (g :: rest) ->
  Blockchain.is_chain_valid (Blockchain.set_chain (g :: rest) bc) None = true
  /\ Blockchain.is_chain_valid bc (Some (g :: rest)) = true
  /\ (forall g', Block.hash g' = Block.hash g ->
        Blockchain.is_chain_valid bc (Some (g' :: rest)) = true).
Proof.
  intros Hall. split; [|split].
  - apply is_chain_valid_spec. exact Hall.
  - apply is_chain_valid_spec. exact Hall.
  - intros g' Hg. apply is_chain_valid_spec. simpl.
    intros i prev cur [Hp Hc]. destruct i as [|i].
    + injection Hp as <-.
      destruct (Hall 0%nat g cur (conj eq_refl Hc)) as [Hl Hs Hw].
      constructor; [congruence | assumption | assumption].
    + apply (Hall (S i)). split; assumption.
Qed.

Lemma genesis_block_unchecked_witness :
  Blockchain.chain mined_ledger = [our_genesis; sealed_block]
  /\ (leading_zeros (Block.hash our_genesis)
      < Blockchain.difficulty genesis_ledger)%nat
  /\ Blockchain.is_chain_valid
       (Blockchain.set_chain [our_genesis; sealed_block] genesis_ledger) None = true
  /\ Blockchain.is_chain_valid genesis_ledger (Some [our_genesis; sealed_block])
     = true.
Proof.
  split; [reflexivity|]. split; [vm_compute; lia|].
  assert (H : hash_chain_invariants (Blockchain.difficulty genesis_ledger)
                [our_genesis; sealed_block]).
  { intros i prev cur Hadj. only_pair Hadj.
    constructor; vm_compute; [reflexivity | reflexivity | lia]. }
  destruct (genesis_block_unchecked genesis_ledger our_genesis [sealed_block] H)
    as (Hown & Hreceived & _).
  split; assumption.
Defined.

(** ** Mining *)

Lemma calculate_hash_fields (b b' : Block.t) :
  Block.index b = Block.index b' ->
  Block.transactions b = Block.transactions b' ->
  Block.timestamp b = Block.timestamp b' ->
  Block.previous_hash b = Block.previous_hash b' ->
  Block.nonce b = Block.nonce b' ->
  Block.calculate_hash b = Block.calculate_hash b'.
Proof. unfold Block.calculate_hash. intros -> -> -> -> ->. reflexivity. Qed.

(** What the loop leaves of the candidate: everything but the nonce and the
    cache. *)
Definition same_content (b b' : Block.t) : Prop :=
  Block.index b' = Block.index b
  /\ Block.transactions b' = Block.transactions b
  /\ Block.timestamp b' = Block.timestamp b
  /\ Block.previous_hash b' = Block.previous_hash b
  /\ Block.nonce b <= Block.nonce b'.

Lemma mine_block_sound (fuel : nat) (bc : Blockchain.t) (b b' : Block.t) :
  Blockchain.mine_block fuel bc b = Some b' ->
  (Blockchain.difficulty bc <= leading_zeros (Block.hash b'))%nat
  /\ same_content b b'
  /\ (Block._hash b = None -> Block.hash b' = Block.calculate_hash b').
Proof.
  revert b. induction fuel as [|fuel IH]; intros b; simpl; [discriminate|].
  destruct (String.eqb _ _) eqn:Htest; simpl.
  - intros [= <-]. apply prefix_test in Htest.
    split; [exact Htest|]. split.
    + unfold same_content. simpl. repeat split; lia.
    + intros Hnone. unfold Block.hash at 1. simpl.
      unfold Block.hash. rewrite Hnone. apply calculate_hash_fields; reflexivity.
  - intros Hrec. apply IH in Hrec as (Hz & (Hi & Ht & Hts & Hp & Hn) & Hcalc).
    simpl in *. split; [exact Hz|]. split.
    + unfold same_content. repeat split; try assumption. lia.
    + intros _. apply Hcalc. reflexivity.
Qed.

(** The loop stops as soon as a nonce does: when the nonce [k] steps ahead
    gives a hash with enough zeros, [k + 1] tests of the condition suffice. *)
Lemma mine_block_finds (k : nat) (bc : Blockchain.t) (b : Block.t) :
  Block._hash b = None ->
  (Blockchain.difficulty bc
   <= leading_zeros
        (Block.calculate_hash (Block.set_nonce (Block.nonce b + Z.of_nat k) b)))%nat ->
  exists b', Blockchain.mine_block (S k) bc b = Some b'.
Proof.
  revert b. induction k as [|k IH]; intros b Hnone Hz.
  - simpl. replace (Block.hash (Block.cached b)) with (Block.calculate_hash b).
    2: { unfold Block.cached, Block.hash. simpl. rewrite Hnone. reflexivity. }
    assert (E : Block.calculate_hash
                  (Block.set_nonce (Block.nonce b + Z.of_nat 0) b)
                = Block.calculate_hash b)
      by (apply calculate_hash_fields; simpl; solve [reflexivity | lia]).
    rewrite E in Hz. apply prefix_test in Hz.
    rewrite Hz. simpl. eauto.
  - change (Blockchain.mine_block (S (S k)) bc b)
      with (let block := Block.cached b in
            if negb (String.eqb (str_prefix (Blockchain.difficulty bc) (Block.hash block))
                                (str_mul "0" (Blockchain.difficulty bc)))
            then Blockchain.mine_block (S k) bc
                   (Block.set_hash None (Block.set_nonce (Block.nonce block + 1) block))
            else Some block).
    cbv zeta. destruct (String.eqb _ _); simpl negb; cbv iota; [eauto|].
    apply IH; [reflexivity|].
    erewrite calculate_hash_fields; [exact Hz | | | | |]; simpl; try reflexivity.
    lia.
Qed.

Lemma mine_block_more_fuel (fuel : nat) (bc : Blockchain.t) (b b' : Block.t) :
  Blockchain.mine_block fuel bc b = Some b' ->
  Blockchain.mine_block (S fuel) bc b = Some b'.
Proof.
  revert b. induction fuel as [|fuel IH]; intros b; [discriminate|].
  intros H. simpl in H.
  change (Blockchain.mine_block (S (S fuel)) bc b)
    with (let block := Block.cached b in
          if negb (String.eqb (str_prefix (Blockchain.difficulty bc) (Block.hash block))
                              (str_mul "0" (Blockchain.difficulty bc)))
          then Blockchain.mine_block (S fuel) bc
                 (Block.set_hash None (Block.set_nonce (Block.nonce block + 1) block))
          else Some block).
  cbv zeta. destruct (String.eqb _ _); simpl negb in *; cbv iota in *.
  - exact H.
  - apply IH. exact H.
Qed.

(** The call returns whenever the chain has a block and some nonce gives the
    candidate enough zeros: fuel for one more test than that nonce does. *)
Lemma mine_pending_transactions_returns
    (k : nat) (address : string) (reward_time block_time : Z)
    (bc : Blockchain.t) (latest : Block.t) :
  last (Blockchain.chain bc) = Some latest ->
  (Blockchain.difficulty bc
   <= leading_zeros
        (Block.calculate_hash
           (Block.new (Z.of_nat (length (Blockchain.chain bc)))
              (Blockchain.current_transactions bc
               ++ [Transaction.Build None address (Blockchain.mining_reward bc)
                     reward_time])
              block_time (Block.hash latest) (Z.of_nat k))))%nat ->
  exists block bc',
    Blockchain.mine_pending_transactions (S k) address reward_time block_time bc
    = (Return block, bc').
Proof.
  intros Hlast Hz. unfold Blockchain.mine_pending_transactions.
  unfold Blockchain.get_latest_block. cbn [Blockchain.chain Blockchain.set_current_transactions].
  rewrite Hlast.
  destruct (mine_block_finds k
              (Blockchain.set_current_transactions
                 (Blockchain.current_transactions bc
                  ++ [Transaction.Build None address (Blockchain.mining_reward bc)
                        reward_time]) bc)
              (Block.new (Z.of_nat (length (Blockchain.chain bc)))
                 (Blockchain.current_transactions bc
                  ++ [Transaction.Build None address (Blockchain.mining_reward bc)
                        reward_time])
                 block_time (Block.hash latest) 0)) as [sealed Hsealed].
  - reflexivity.
  - exact Hz.
  - cbn [Blockchain.chain Blockchain.current_transactions Blockchain.mining_reward
         Blockchain.set_current_transactions] in *.
    rewrite Hsealed. eauto.
Qed.

(** C6: when [mine_pending_transactions] returns, the block it returns has
    at least [difficulty] leading zeros in its hash, is the new last block
    of a chain grown by exactly one, and the pool is empty. *)
Theorem mine_pending_transactions_seals
    (fuel : nat) (address : string) (reward_time block_time : Z)
    (bc bc' : Blockchain.t) (block : Block.t) :
  Blockchain.mine_pending_transactions fuel address reward_time block_time bc
  = (Return block, bc') ->
  (Blockchain.difficulty bc <= leading_zeros (Block.hash block))%nat
  /\ Block.hash block = Block.calculate_hash block
  /\ Blockchain.chain bc' = Blockchain.chain bc ++ [block]
  /\ Blockchain.get_latest_block bc' = Return block
  /\ length (Blockchain.chain bc') = S (length (Blockchain.chain bc))
  /\ Blockchain.current_transactions bc' = [].
Proof.
  unfold Blockchain.mine_pending_transactions.
  destruct (Blockchain.get_latest_block _) as [latest| |]; try discriminate.
  destruct (Blockchain.mine_block _ _ _) as [sealed_block|] eqn:Hmine;
    [|discriminate].
  intros [= <- <-]. apply mine_block_sound in Hmine as (Hz & _ & Hcalc).
  simpl in *. repeat split.
  - exact Hz.
  - apply Hcalc. reflexivity.
  - unfold Blockchain.get_latest_block. simpl. rewrite last_snoc. reflexivity.
  - rewrite length_app. simpl. lia.
Qed.

Lemma mine_pending_transactions_seals_witness :
  Blockchain.mine_pending_transactions 4 "addr1" 1730023002 1730023002 paid_ledger
  = (Return sealed_block, mined_ledger)
  /\ (Blockchain.difficulty paid_ledger <= leading_zeros (Block.hash sealed_block))%nat
  /\ Blockchain.chain mined_ledger = Blockchain.chain paid_ledger ++ [sealed_block]
  /\ Blockchain.current_transactions mined_ledger = [].
Proof.
  assert (H : Blockchain.mine_pending_transactions 4 "addr1" 1730023002 1730023002
                paid_ledger
              = (Return sealed_block, mined_ledger))
    by (vm_compute; reflexivity).
  split; [exact H|].
  destruct (mine_pending_transactions_seals _ _ _ _ _ _ _ H)
    as (Hz & _ & Hchain & _ & _ & Hpool).
  split; [exact Hz|]. split; [exact Hchain | exact Hpool].
Defined.

(** C4 (amended): the check for an empty pool is made by the two route
    handlers, [api_mine] and the form handler [mine_block], which answer
    with an error and leave the ledger as it is.  [mine_pending_transactions]
    has no such check: on an empty pool a call that returns has sealed and
    appended a block holding the reward transaction alone. *)
Theorem empty_pool_guard_in_routes
    (fuel : nat) (address : string) (reward_time block_time : Z)
    (bc : Blockchain.t) :
  Blockchain.current_transactions bc = [] ->
  Routes.api_mine fuel address reward_time block_time bc
  = (Return (Routes.Error "No transactions to mine", 400), bc)
  /\ Routes.mine_block fuel address reward_time block_time bc
     = (Return (Routes.Flash "No transactions to mine" "error"), bc)
  /\ (forall block bc',
        Blockchain.mine_pending_transactions fuel address reward_time block_time bc
        = (Return block, bc') ->
        Block.transactions block
        = [Transaction.Build None address (Blockchain.mining_reward bc) reward_time]
        /\ Blockchain.chain bc' = Blockchain.chain bc ++ [block]).
Proof.
  intros Hpool. unfold Routes.api_mine, Routes.mine_block. rewrite Hpool.
  split; [reflexivity|]. split; [reflexivity|].
  intros block bc'. unfold Blockchain.mine_pending_transactions.
  destruct (Blockchain.get_latest_block _) as [latest| |]; try discriminate.
  destruct (Blockchain.mine_block _ _ _) as [sealed|] eqn:Hmine; [|discriminate].
  intros [= <- <-]. apply mine_block_sound in Hmine as (_ & (_ & Htxs & _) & _).
  simpl in *. rewrite Hpool in Htxs. split; [exact Htxs | reflexivity].
Qed.

Lemma empty_pool_guard_in_routes_witness :
  Blockchain.current_transactions genesis_ledger = []
  /\ Routes.api_mine 4 "node1" 1730027286 1730027286 genesis_ledger
     = (Return (Routes.Error "No transactions to mine", 400), genesis_ledger).
Proof.
  split; [reflexivity|].
  apply (empty_pool_guard_in_routes 4 "node1" 1730027286 1730027286 genesis_ledger).
  reflexivity.
Defined.

(** C4 as stated fails: on the freshly constructed ledger, whose pool is
    empty, [mine_pending_transactions] returns a block and appends it. *)
Lemma mine_pending_transactions_on_empty_pool :
  Blockchain.current_transactions genesis_ledger = []
  /\ Blockchain.mine_pending_transactions 4 "node1" 1730027286 1730027286
       genesis_ledger
     = (Return reward_only_block,
        Blockchain.set_chain [our_genesis; reward_only_block] genesis_ledger).
Proof. split; [reflexivity|]. vm_compute. reflexivity. Qed.

(** C5 (amended): [add_transaction] appends the transaction to the pool
    whatever its amount and changes nothing else; on a ledger whose chain
    has a last block it returns that block's index plus one, on an empty
    chain it raises [IndexError] after the append.  Amounts of 0 or less are
    turned away by its two callers, [api_transactions] and the form handler
    [create_transaction], which then leave the ledger as it is. *)
Theorem amount_guard_in_routes
    (sender recipient : string) (amount now : Z) (bc : Blockchain.t) :
  (forall payer tip,
     last (Blockchain.chain bc) = Some tip ->
     Blockchain.add_transaction payer recipient amount now bc
     = (Return (Block.index tip + 1),
        Blockchain.set_current_transactions
          (Blockchain.current_transactions bc
           ++ [Transaction.Build payer recipient amount now]) bc))
  /\ (forall payer,
        Blockchain.chain bc = [] ->
        Blockchain.add_transaction payer recipient amount now bc
        = (Raise IndexError,
           Blockchain.set_current_transactions
             (Blockchain.current_transactions bc
              ++ [Transaction.Build payer recipient amount now]) bc))
  /\ (amount <= 0 ->
      Routes.api_transactions_post
        {| Routes.v_sender := Some sender; Routes.v_recipient := Some recipient;
           Routes.v_amount := Some amount |} now bc
      = (Return (Routes.Error "Amount must be positive", 400), bc)
      /\ Routes.create_transaction sender recipient amount now bc
         = (Return (Routes.Flash "Amount must be positive" "error"), bc)).
Proof.
  split; [|split].
  - intros payer tip Hlast.
    unfold Blockchain.add_transaction, Blockchain.get_latest_block.
    cbn [Blockchain.chain Blockchain.set_current_transactions].
    rewrite Hlast. reflexivity.
  - intros payer Hempty.
    unfold Blockchain.add_transaction, Blockchain.get_latest_block.
    cbn [Blockchain.chain Blockchain.set_current_transactions].
    rewrite Hempty. reflexivity.
  - intros Hamount. unfold Routes.api_transactions_post, Routes.create_transaction.
    simpl. apply Z.leb_le in Hamount. rewrite Hamount. split; reflexivity.
Qed.

Lemma amount_guard_in_routes_witness :
  last (Blockchain.chain gap_ledger)
  = Some (Block.Build 7 [] 1730000100
            "edb0e2be71691b9d80a8094f709e0ebb1224f54e47b3eae6b728af1e29b5b6e4"
            144880
            (Some "00000f60467fff40afb6cabc9df12b7a2a049785a5f5f1e64cb5bd457e91db70"))
  /\ Blockchain.add_transaction (Some "A") "B" (-5) 1730000060 gap_ledger
     = (Return 8,
        Blockchain.set_current_transactions
          [Transaction.Build (Some "A") "B" (-5) 1730000060] gap_ledger)
  /\ length (Blockchain.chain gap_ledger) = 2%nat
  /\ -5 <= 0
  /\ Routes.api_transactions_post
       {| Routes.v_sender := Some "A"; Routes.v_recipient := Some "B";
          Routes.v_amount := Some (-5) |} 1730000060 gap_ledger
     = (Return (Routes.Error "Amount must be positive", 400), gap_ledger).
Proof.
  assert (Hlast : last (Blockchain.chain gap_ledger)
                  = Some (Block.Build 7 [] 1730000100
                            "edb0e2be71691b9d80a8094f709e0ebb1224f54e47b3eae6b728af1e29b5b6e4"
                            144880
                            (Some "00000f60467fff40afb6cabc9df12b7a2a049785a5f5f1e64cb5bd457e91db70")))
    by reflexivity.
  assert (H : -5 <= 0) by lia.
  split; [exact Hlast|]. split.
  - exact (proj1 (amount_guard_in_routes "A" "B" (-5) 1730000060 gap_ledger)
             (Some "A") _ Hlast).
  - split; [reflexivity|]. split; [exact H|].
    exact (proj1 (proj2 (proj2 (amount_guard_in_routes "A" "B" (-5) 1730000060
                                  gap_ledger)) H)).
Defined.

(** C5 as stated fails: [add_transaction] with amount -5 returns and the
    pool has grown. *)
Lemma add_transaction_accepts_negative_amount :
  Blockchain.add_transaction (Some "A") "B" (-5) 1730000060 genesis_ledger
  = (Return 1,
     Blockchain.set_current_transactions
       [Transaction.Build (Some "A") "B" (-5) 1730000060] genesis_ledger)
  /\ Blockchain.current_transactions
       (snd (Blockchain.add_transaction (Some "A") "B" (-5) 1730000060
               genesis_ledger))
     <> Blockchain.current_transactions genesis_ledger.
Proof. split; [reflexivity | discriminate]. Qed.

(** ** Reachable ledgers *)

Lemma add_transaction_chain sender recipient amount now (bc : Blockchain.t) :
  Blockchain.chain (snd (Blockchain.add_transaction sender recipient amount now bc))
  = Blockchain.chain bc.
Proof.
  unfold Blockchain.add_transaction.
  destruct (Blockchain.get_latest_block _); reflexivity.
Qed.

Lemma mine_pending_transactions_chain fuel address reward_time block_time
    (bc : Blockchain.t) :
  Blockchain.chain bc <> [] ->
  Blockchain.chain
    (snd (Blockchain.mine_pending_transactions fuel address reward_time
            block_time bc)) <> [].
Proof.
  intros Hne. unfold Blockchain.mine_pending_transactions.
  destruct (Blockchain.get_latest_block _) as [latest| |]; try exact Hne.
  destruct (Blockchain.mine_block _ _ _) as [sealed|]; [|exact Hne].
  simpl. intros Happ. apply app_eq_nil in Happ as [_ Hnil]. discriminate.
Qed.

Lemma register_node_chain urlparse address (bc : Blockchain.t) :
  Blockchain.chain (snd (Blockchain.register_node urlparse address bc))
  = Blockchain.chain bc.
Proof.
  unfold Blockchain.register_node.
  destruct (truthy _); [reflexivity|]. destruct (truthy _); reflexivity.
Qed.

Lemma resolve_conflicts_chain order requests_get (bc : Blockchain.t) :
  Blockchain.chain bc <> [] ->
  Blockchain.chain (snd (Blockchain.resolve_conflicts_in order requests_get bc))
  <> [].
Proof.
  intros Hne. unfold Blockchain.resolve_conflicts_in.
  destruct (fst _) as [[|b rest]|]; simpl; try exact Hne. discriminate.
Qed.

Lemma step_chain_nonempty (bc bc' : Blockchain.t) :
  step bc bc' -> Blockchain.chain bc <> [] -> Blockchain.chain bc' <> [].
Proof.
  intros Hstep Hne. destruct Hstep.
  - rewrite add_transaction_chain. exact Hne.
  - apply mine_pending_transactions_chain. exact Hne.
  - exact Hne.
  - exact Hne.
  - rewrite register_node_chain. exact Hne.
  - apply resolve_conflicts_chain. exact Hne.
Qed.

(** C8: every ledger reachable from construction has a non-empty chain, so
    [get_latest_block] returns a block. *)
Theorem reachable_chain_nonempty (bc : Blockchain.t) :
  reachable bc ->
  Blockchain.chain bc <> []
  /\ exists tip, Blockchain.get_latest_block bc = Return tip.
Proof.
  intros Hreach.
  assert (Hne : Blockchain.chain bc <> []).
  { induction Hreach as [now | bc bc' _ IH Hstep].
    - unfold Blockchain.init, Blockchain.create_genesis_block. simpl. discriminate.
    - exact (step_chain_nonempty bc bc' Hstep IH). }
  split; [exact Hne|].
  unfold Blockchain.get_latest_block.
  destruct (last (Blockchain.chain bc)) as [tip|] eqn:Hlast; [eauto|].
  apply last_None in Hlast. contradiction.
Qed.

Lemma reachable_chain_nonempty_witness :
  reachable
    (snd (Blockchain.resolve_conflicts_in ["peer1:5000"] (answer_with empty_answer)
            (Blockchain.init 1730000000)))
  /\ exists tip,
       Blockchain.get_latest_block
         (snd (Blockchain.resolve_conflicts_in ["peer1:5000"]
                 (answer_with empty_answer) (Blockchain.init 1730000000)))
       = Return tip.
Proof.
  assert (H : reachable
                (snd (Blockchain.resolve_conflicts_in ["peer1:5000"]
                        (answer_with empty_answer) (Blockchain.init 1730000000)))).
  { apply (reachable_step (Blockchain.init 1730000000)).
    - apply reachable_init.
    - apply step_resolve_conflicts. }
  split; [exact H|]. apply (reachable_chain_nonempty _ H).
Defined.

(** ** Balances *)

Lemma sum_amounts_app (l1 l2 : list Transaction.t) :
  sum_amounts (l1 ++ l2) = sum_amounts l1 + sum_amounts l2.
Proof. induction l1 as [|tx l1 IH]; simpl; [reflexivity | rewrite IH; lia]. Qed.

Lemma sum_filter_permutation (f : Transaction.t -> bool) (l l' : list Transaction.t) :
  Permutation l l' ->
  sum_amounts (List.filter f l) = sum_amounts (List.filter f l').
Proof.
  induction 1 as [|x l l' _ IH|x y l|l l' l'' _ IH1 _ IH2]; simpl.
  - reflexivity.
  - destruct (f x); simpl; rewrite IH; reflexivity.
  - destruct (f x), (f y); simpl; lia.
  - congruence.
Qed.

Lemma concat_permutation {A : Type} (l l' : list (list A)) :
  Permutation l l' -> Permutation (concat l) (concat l').
Proof.
  induction 1 as [|x l l' _ IH|x y l|l l' l'' _ IH1 _ IH2]; simpl.
  - apply perm_nil.
  - apply Permutation_app_head. exact IH.
  - rewrite !app_assoc. apply Permutation_app_tail. apply Permutation_app_comm.
  - eapply perm_trans; eassumption.
Qed.

Lemma concat_pointwise_permutation (l l' : list Block.t) :
  Forall2 (fun b b' => Permutation (Block.transactions b) (Block.transactions b')) l l' ->
  Permutation (sealed_transactions l) (sealed_transactions l').
Proof.
  unfold sealed_transactions.
  induction 1 as [|b b' l l' Hb _ IH]; simpl.
  - apply perm_nil.
  - apply Permutation_app; assumption.
Qed.

(** The inner loop of [get_balance]. *)
Lemma balance_of_block (address : string) (txs : list Transaction.t) (balance : Z) :
  fold_left
    (fun balance transaction =>
       let balance :=
         if opt_str_eqb (Transaction.sender transaction) address
         then balance - Transaction.amount transaction
         else balance in
       if String.eqb (Transaction.recipient transaction) address
       then balance + Transaction.amount transaction
       else balance)
    txs balance
  = balance
    + sum_amounts (List.filter (fun tx => String.eqb (Transaction.recipient tx) address) txs)
    - sum_amounts (List.filter (fun tx => opt_str_eqb (Transaction.sender tx) address) txs).
Proof.
  revert balance. induction txs as [|tx txs IH]; intros balance; simpl.
  - lia.
  - rewrite IH.
    destruct (opt_str_eqb _ _), (String.eqb _ _); simpl; lia.
Qed.

(** The outer loop. *)
Lemma balance_of_chain (address : string) (chain : list Block.t) (start : Z) :
  fold_left
    (fun balance block =>
       fold_left
         (fun balance transaction =>
            let balance :=
              if opt_str_eqb (Transaction.sender transaction) address
              then balance - Transaction.amount transaction
              else balance in
            if String.eqb (Transaction.recipient transaction) address
            then balance + Transaction.amount transaction
            else balance)
         (Block.transactions block) balance)
    chain start
  = start + received address chain - sent address chain.
Proof.
  unfold received, sent, sealed_transactions. revert start.
  induction chain as [|block chain IH]; intros start; simpl.
  - lia.
  - rewrite IH, balance_of_block, !List.filter_app, !sum_amounts_app. lia.
Qed.

Lemma get_balance_formula (address : string) (bc : Blockchain.t) :
  Blockchain.get_balance address bc
  = received address (Blockchain.chain bc) - sent address (Blockchain.chain bc).
Proof. unfold Blockchain.get_balance. rewrite balance_of_chain. lia. Qed.

Lemma get_balance_permutation (address : string) (bc bc' : Blockchain.t) :
  Permutation (sealed_transactions (Blockchain.chain bc))
              (sealed_transactions (Blockchain.chain bc')) ->
  Blockchain.get_balance address bc' = Blockchain.get_balance address bc.
Proof.
  intros Hperm. rewrite !get_balance_formula. unfold received, sent.
  rewrite (sum_filter_permutation _ _ _ Hperm).
  rewrite (sum_filter_permutation (fun tx => opt_str_eqb _ _) _ _ Hperm).
  reflexivity.
Qed.

Lemma get_balance_as_loop (address : string) (bc : Blockchain.t) :
  Blockchain.get_balance address bc
  = Amounts.get_balance 0 Z.add Z.sub address (entries_of (Blockchain.chain bc)).
Proof.
  unfold Blockchain.get_balance, Amounts.get_balance, entries_of.
  generalize 0 as start.
  induction (Blockchain.chain bc) as [|block chain IH]; intros start;
    [reflexivity|].
  cbn [map fold_left]. rewrite <- IH. f_equal.
  generalize start as balance.
  induction (Block.transactions block) as [|tx txs IHt]; intros balance;
    [reflexivity|].
  cbn [map fold_left]. rewrite <- IHt. reflexivity.
Qed.

(** Only the sequence of the transactions counts, not the blocks they are
    grouped in; this holds for every arithmetic. *)
Lemma get_balance_flat {A : Type} (zero : A) (add sub : A -> A -> A)
    (address : string) (chain : list (list (Amounts.entry A))) :
  Amounts.get_balance zero add sub address chain
  = fold_left (Amounts.step add sub address) (concat chain) zero.
Proof.
  unfold Amounts.get_balance. generalize zero as start.
  induction chain as [|block chain IH]; intros start; [reflexivity|].
  cbn [concat fold_left]. rewrite fold_left_app. apply IH.
Qed.

(** Every whole number of the range is tried. *)
Lemma whole_range_covers (bound x : Z) :
  Z.abs x <= bound -> In x (whole_range bound).
Proof.
  intros Hx. unfold whole_range. apply List.in_map_iff.
  exists (Z.to_nat (x + bound)). split; [lia|].
  apply List.in_seq. lia.
Qed.

Lemma exact_upto_checked (bound : Z) :
  exact_upto_check bound = true -> exact_upto bound.
Proof.
  unfold exact_upto_check. intros Hcheck x y Hx Hy.
  rewrite List.forallb_forall in Hcheck.
  specialize (Hcheck x (whole_range_covers _ _ Hx)).
  rewrite List.forallb_forall in Hcheck.
  specialize (Hcheck y (whole_range_covers _ _ Hy)).
  apply andb_prop in Hcheck as [Hadd Hsub]. split; intros Hin.
  - apply Z.leb_le in Hin. rewrite Hin in Hadd.
    apply FloatAxioms.Leibniz.eqb_spec. exact Hadd.
  - apply Z.leb_le in Hin. rewrite Hin in Hsub.
    apply FloatAxioms.Leibniz.eqb_spec. exact Hsub.
Qed.

(** Binary64 is exact on the whole numbers up to 32. *)
Lemma binary64_exact_upto_32 : exact_upto 32.
Proof. apply exact_upto_checked. vm_compute. reflexivity. Qed.

(** Where binary64 is exact, its loop goes through the floats of the whole
    numbers the loop over the integers goes through. *)
Lemma binary64_loop_exact (bound : Z) (address : string)
    (txs : list (Amounts.entry Z)) (balance : Z) :
  exact_upto bound ->
  within bound address txs balance = true ->
  fold_left (Amounts.step PrimFloat.add PrimFloat.sub address)
    (map entry_as_binary64 txs) (whole balance)
  = whole (fold_left (Amounts.step Z.add Z.sub address) txs balance).
Proof.
  intros Hexact. revert balance.
  induction txs as [|tx txs IH]; intros balance Hin; [reflexivity|].
  cbn [map fold_left]. cbn [within] in Hin.
  apply andb_prop in Hin as [Hb Hin]. apply andb_prop in Hin as [Hin Hrest].
  apply andb_prop in Hin as [Ha Hd].
  apply Z.leb_le in Hb. apply Z.leb_le in Ha. apply Z.leb_le in Hd.
  assert (Hnext : Z.abs (Amounts.step Z.add Z.sub address balance tx) <= bound).
  { destruct txs; cbn [within] in Hrest; apply andb_prop in Hrest as [H _];
      apply Z.leb_le in H; exact H. }
  rewrite <- (IH _ Hrest). f_equal.
  unfold Amounts.step in Hnext |- *.
  cbn [entry_as_binary64 Amounts.sender Amounts.recipient Amounts.amount].
  destruct (opt_str_eqb (Amounts.sender tx) address),
           (String.eqb (Amounts.recipient tx) address).
  - rewrite (proj2 (Hexact _ _ Hb Ha) Hd).
    apply (proj1 (Hexact _ _ Hd Ha) Hnext).
  - apply (proj2 (Hexact _ _ Hb Ha) Hd).
  - apply (proj1 (Hexact _ _ Hb Ha) Hnext).
  - reflexivity.
Qed.

Lemma binary64_balance_exact (bound : Z) (address : string)
    (chain : list (list (Amounts.entry Z))) :
  exact_upto bound ->
  within bound address (concat chain) 0 = true ->
  Amounts.get_balance_binary64 address (as_binary64 chain)
  = whole (Amounts.get_balance 0 Z.add Z.sub address chain).
Proof.
  intros Hexact Hin. unfold Amounts.get_balance_binary64, as_binary64.
  rewrite !get_balance_flat, <- List.concat_map.
  apply (binary64_loop_exact bound address (concat chain) 0 Hexact Hin).
Qed.

(** C7 (amended): [get_balance] is the loop over the sealed transactions in
    chain order, from 0, subtracting the amount where the sender is the
    address and then adding it where the recipient is; only that sequence
    counts, not its grouping into blocks, and the pool does not enter.  For
    amounts that are Python ints the result is R - S and does not depend on
    the order of the blocks or of the transactions inside a block.  For
    floats that hold whole numbers the loop in binary64 gives the float of
    that R - S, as long as the amounts and the values the loop goes through
    stay in a range on which binary64 adds and subtracts whole numbers
    without rounding. *)
Theorem get_balance_received_minus_sent (address : string) (bc : Blockchain.t) :
  Blockchain.get_balance address bc
  = Amounts.get_balance 0 Z.add Z.sub address (entries_of (Blockchain.chain bc))
  /\ (forall (A : Type) (zero : A) (add sub : A -> A -> A)
             (chain : list (list (Amounts.entry A))),
        Amounts.get_balance zero add sub address chain
        = fold_left (Amounts.step add sub address) (concat chain) zero)
  /\ Blockchain.get_balance address bc
     = received address (Blockchain.chain bc) - sent address (Blockchain.chain bc)
  /\ (forall pool,
        Blockchain.get_balance address (Blockchain.set_current_transactions pool bc)
        = Blockchain.get_balance address bc)
  /\ (forall bc',
        Permutation (Blockchain.chain bc) (Blockchain.chain bc') ->
        Blockchain.get_balance address bc' = Blockchain.get_balance address bc)
  /\ (forall bc',
        Forall2 (fun b b' =>
                   Permutation (Block.transactions b) (Block.transactions b'))
                (Blockchain.chain bc) (Blockchain.chain bc') ->
        Blockchain.get_balance address bc' = Blockchain.get_balance address bc)
  /\ (forall bound,
        exact_upto bound ->
        within bound address (concat (entries_of (Blockchain.chain bc))) 0 = true ->
        Amounts.get_balance_binary64 address
          (as_binary64 (entries_of (Blockchain.chain bc)))
        = whole (received address (Blockchain.chain bc)
                 - sent address (Blockchain.chain bc))).
Proof.
  split; [apply get_balance_as_loop|].
  split; [intros A zero add sub chain; apply get_balance_flat|].
  split; [apply get_balance_formula|]. split; [reflexivity|].
  split; [|split].
  - intros bc' Hperm. apply get_balance_permutation.
    unfold sealed_transactions. apply concat_permutation.
    apply Permutation_map. exact Hperm.
  - intros bc' Hall. apply get_balance_permutation.
    apply concat_pointwise_permutation. exact Hall.
  - intros bound Hexact Hin.
    rewrite (binary64_balance_exact bound _ _ Hexact Hin).
    rewrite <- get_balance_as_loop, get_balance_formula. reflexivity.
Qed.

Lemma get_balance_received_minus_sent_witness :
  Permutation (Blockchain.chain settled_ledger)
    [our_genesis; spent_block; sealed_block]
  /\ Blockchain.get_balance "B"
       (Blockchain.set_chain [our_genesis; spent_block; sealed_block]
          settled_ledger)
     = Blockchain.get_balance "B" settled_ledger
  /\ Blockchain.get_balance "B" settled_ledger = 2
  /\ within 32 "B" (concat (entries_of (Blockchain.chain settled_ledger))) 0
     = true
  /\ Amounts.get_balance_binary64 "B"
       (as_binary64 (entries_of (Blockchain.chain settled_ledger)))
     = 2%float.
Proof.
  assert (H : Permutation (Blockchain.chain settled_ledger)
                (Blockchain.chain
                   (Blockchain.set_chain [our_genesis; spent_block; sealed_block]
                      settled_ledger)))
    by (apply perm_skip, perm_swap).
  assert (Hin : within 32 "B"
                  (concat (entries_of (Blockchain.chain settled_ledger))) 0
                = true) by reflexivity.
  destruct (get_balance_received_minus_sent "B" settled_ledger)
    as (_ & _ & _ & _ & Hblocks & _ & Hfloat).
  split; [exact H|]. split; [exact (Hblocks _ H)|].
  split; [reflexivity|]. split; [exact Hin|].
  exact (Hfloat 32 binary64_exact_upto_32 Hin).
Defined.

(** C7 as stated fails on the floats the routes store.  With payments of
    0.2 and 0.1 in one block and 0.3 in the next, [B] has
    0.6000000000000001; with the two blocks in the other order, 0.6.  And
    where [B] receives 1e16, returns 1e16 and receives 1, the balance is 1
    while R - S, with R = 1e16 + 1 and S = 1e16, is 0. *)
Lemma get_balance_float_order_matters :
  Permutation [two_payments; one_payment] [one_payment; two_payments]
  /\ PrimFloat.ltb
       (Amounts.get_balance_binary64 "B" [one_payment; two_payments])
       (Amounts.get_balance_binary64 "B" [two_payments; one_payment]) = true
  /\ Amounts.get_balance_binary64 "B" [two_payments; one_payment]
     <> Amounts.get_balance_binary64 "B" [one_payment; two_payments]
  /\ PrimFloat.eqb (Amounts.get_balance_binary64 "B" large_then_small) 1%float
     = true
  /\ PrimFloat.eqb
       (PrimFloat.sub (PrimFloat.add 10000000000000000%float 1%float)
                      10000000000000000%float)
       0%float = true.
Proof.
  split; [apply perm_swap|]. split; [vm_compute; reflexivity|]. split.
  - intros H.
    apply (f_equal (fun x => PrimFloat.eqb x
             (Amounts.get_balance_binary64 "B" [one_payment; two_payments]))) in H.
    vm_compute in H. discriminate H.
  - split; vm_compute; reflexivity.
Qed.

(** The three blocks of [settled_ledger] are a chain the program accepts. *)
Example settled_ledger_valid :
  Blockchain.is_chain_valid settled_ledger None = true.
Proof. vm_compute. reflexivity. Qed.

Example balances_after_mining :
  Blockchain.get_balance "B" mined_ledger = 5
  /\ Blockchain.get_balance "A" mined_ledger = -5
  /\ Blockchain.get_balance "addr1" mined_ledger = 10
  /\ Blockchain.get_balance "B" paid_ledger = 0.
Proof. repeat split. Qed.

(** ** Consensus *)

Lemma resolve_step_cases (requests_get : string -> fetch) (bc : Blockchain.t)
    (acc : option (list Block.t) * Z) (node : string) :
  Blockchain.resolve_step requests_get bc acc node = acc
  \/ exists data,
       qualifies requests_get bc (snd acc) node data
       /\ Blockchain.resolve_step requests_get bc acc node
          = (Some (Blockchain.chain_objects_of (export_chain data)),
             export_length data).
Proof.
  unfold Blockchain.resolve_step, qualifies.
  destruct (requests_get (Blockchain.chain_url node)) as [|status data];
    [left; reflexivity|].
  destruct (Z.eqb_spec status 200) as [->|_]; [|left; reflexivity].
  destruct (export_length data >? snd acc) eqn:Hlen; simpl; [|left; reflexivity].
  destruct (Blockchain.is_chain_valid bc _) eqn:Hvalid; [|left; reflexivity].
  right. exists data. apply Z.gtb_gt in Hlen. auto.
Qed.

(** What the loop over the peers ends with: the accumulator it started
    from, or the answer of a peer that passed the test. *)
Lemma resolve_loop_cases (requests_get : string -> fetch) (bc : Blockchain.t)
    (order : list string) (acc : option (list Block.t) * Z) :
  fold_left (Blockchain.resolve_step requests_get bc) order acc = acc
  \/ exists node data,
       In node order
       /\ qualifies requests_get bc (snd acc) node data
       /\ fold_left (Blockchain.resolve_step requests_get bc) order acc
          = (Some (Blockchain.chain_objects_of (export_chain data)),
             export_length data).
Proof.
  revert acc. induction order as [|node order IH]; intros acc; simpl.
  - left. reflexivity.
  - destruct (resolve_step_cases requests_get bc acc node)
      as [Hsame | (data & Hq & Hstep)].
    + rewrite Hsame. destruct (IH acc) as [Hrest | (n & d & Hin & Hq & Hrest)].
      * left. exact Hrest.
      * right. exists n, d. auto.
    + rewrite Hstep.
      destruct (IH (Some (Blockchain.chain_objects_of (export_chain data)),
                    export_length data))
        as [Hrest | (n & d & Hin & (Hget & Hlen & Hvalid) & Hrest)].
      * right. exists node, data. auto.
      * right. exists n, d. split; [auto|]. split; [|exact Hrest].
        destruct Hq as (_ & Hlen0 & _). simpl in Hlen.
        unfold qualifies. repeat split; [exact Hget | lia | exact Hvalid].
Qed.

Lemma resolve_loop_none (requests_get : string -> fetch) (bc : Blockchain.t)
    (order : list string) (acc : option (list Block.t) * Z) :
  (forall node data, In node order -> ~ qualifies requests_get bc (snd acc) node data) ->
  fold_left (Blockchain.resolve_step requests_get bc) order acc = acc.
Proof.
  intros Hnone.
  destruct (resolve_loop_cases requests_get bc order acc)
    as [Hsame | (n & d & Hin & Hq & _)]; [exact Hsame|].
  destruct (Hnone n d Hin Hq).
Qed.

Lemma resolve_conflicts_in_cases (order : list string)
    (requests_get : string -> fetch) (bc : Blockchain.t) :
  Blockchain.resolve_conflicts_in order requests_get bc = (false, bc)
  \/ exists node data,
       In node order
       /\ qualifies requests_get bc (Z.of_nat (length (Blockchain.chain bc))) node data
       /\ ((Blockchain.chain_objects_of (export_chain data) <> []
            /\ Blockchain.resolve_conflicts_in order requests_get bc
               = (true,
                  Blockchain.set_chain
                    (Blockchain.chain_objects_of (export_chain data)) bc))
           \/ (Blockchain.chain_objects_of (export_chain data) = []
               /\ Blockchain.resolve_conflicts_in order requests_get bc
                  = (false, bc))).
Proof.
  unfold Blockchain.resolve_conflicts_in.
  destruct (resolve_loop_cases requests_get bc order
              (None, Z.of_nat (length (Blockchain.chain bc))))
    as [Hsame | (node & data & Hin & Hq & Hloop)].
  - rewrite Hsame. left. reflexivity.
  - rewrite Hloop. right. exists node, data. split; [exact Hin|].
    split; [exact Hq|]. simpl.
    destruct (Blockchain.chain_objects_of (export_chain data)) as [|b rest].
    + right. split; reflexivity.
    + left. split; [discriminate | reflexivity].
Qed.

(** C2 (amended): [resolve_conflicts] replaces the chain only by the
    non-empty block list of a peer that answered with status 200, announced
    in its [length] field more than the local chain has blocks, and whose
    list passes [is_chain_valid]; the number of blocks in the list is not
    compared.  When it returns false the ledger is as before, and this is so
    whenever no answer passes that test. *)
Theorem resolve_conflicts_by_announced_length
    (requests_get : string -> fetch) (bc : Blockchain.t) :
  (fst (Blockchain.resolve_conflicts requests_get bc) = true ->
   exists node data,
     node ∈ Blockchain.nodes bc
     /\ qualifies requests_get bc (Z.of_nat (length (Blockchain.chain bc))) node data
     /\ Blockchain.chain_objects_of (export_chain data) <> []
     /\ snd (Blockchain.resolve_conflicts requests_get bc)
        = Blockchain.set_chain (Blockchain.chain_objects_of (export_chain data)) bc)
  /\ (fst (Blockchain.resolve_conflicts requests_get bc) = false ->
      snd (Blockchain.resolve_conflicts requests_get bc) = bc)
  /\ ((forall node data,
         node ∈ Blockchain.nodes bc ->
         ~ qualifies requests_get bc (Z.of_nat (length (Blockchain.chain bc)))
             node data) ->
      Blockchain.resolve_conflicts requests_get bc = (false, bc)).
Proof.
  unfold Blockchain.resolve_conflicts.
  destruct (resolve_conflicts_in_cases (elements (Blockchain.nodes bc))
              requests_get bc)
    as [Hkept | (node & data & Hin & Hq & Hcases)].
  - rewrite Hkept. simpl. split; [discriminate|]. split; reflexivity.
  - assert (Hnode : node ∈ Blockchain.nodes bc).
    { apply elem_of_elements. apply list_elem_of_In. exact Hin. }
    destruct Hcases as [[Hne Hres] | [Hnil Hres]]; rewrite Hres; simpl.
    + split; [intros _; exists node, data; auto|].
      split; [discriminate|]. intros Hnone. destruct (Hnone node data Hnode Hq).
    + split; [discriminate|]. split; reflexivity.
Qed.

Lemma resolve_conflicts_by_announced_length_witness :
  (forall node data,
     node ∈ Blockchain.nodes ledger_with_peer ->
     ~ qualifies (fun _ => RequestException) ledger_with_peer
         (Z.of_nat (length (Blockchain.chain ledger_with_peer))) node data)
  /\ Blockchain.resolve_conflicts (fun _ => RequestException) ledger_with_peer
     = (false, ledger_with_peer).
Proof.
  assert (H : forall node data,
            node ∈ Blockchain.nodes ledger_with_peer ->
            ~ qualifies (fun _ => RequestException) ledger_with_peer
                (Z.of_nat (length (Blockchain.chain ledger_with_peer))) node data).
  { intros node data _ [Hget _]. discriminate. }
  split; [exact H|].
  exact (proj2 (proj2 (resolve_conflicts_by_announced_length
                         (fun _ => RequestException) ledger_with_peer)) H).
Defined.

(** C2 as stated fails: a one-block list announced as three blocks long
    replaces a local chain of one block; the last block's hash changes. *)
Lemma resolve_conflicts_installs_equal_length :
  Blockchain.resolve_conflicts (answer_with inflated_answer) ledger_with_peer
  = (true,
     Blockchain.set_chain (Blockchain.chain_objects_of [foreign_genesis_data])
       ledger_with_peer)
  /\ length (Blockchain.chain_objects_of (export_chain inflated_answer))
     = length (Blockchain.chain ledger_with_peer)
  /\ option_map Block.hash (last (Blockchain.chain ledger_with_peer))
     <> option_map Block.hash
          (last (Blockchain.chain
                   (snd (Blockchain.resolve_conflicts
                           (answer_with inflated_answer) ledger_with_peer)))).
Proof.
  split; [vm_compute; reflexivity|]. split; [reflexivity|].
  vm_compute. discriminate.
Qed.

(** C3 (amended): the loop compares the [length] field of the answer with
    the best length so far, never the number of decoded blocks.  With one
    registered peer whose answer announces more than the local length and
    whose block list validates, that list replaces the local chain however
    few blocks it has, as long as it has one; an empty list is not
    installed. *)
Theorem resolve_conflicts_trusts_length_field
    (requests_get : string -> fetch) (bc : Blockchain.t)
    (node : string) (data : ChainExport) :
  requests_get (Blockchain.chain_url node) = Response 200 data ->
  (forall acc,
     Blockchain.resolve_step requests_get bc acc node
     = if (export_length data >? snd acc)
          && Blockchain.is_chain_valid bc
               (Some (Blockchain.chain_objects_of (export_chain data)))
       then (Some (Blockchain.chain_objects_of (export_chain data)),
             export_length data)
       else acc)
  /\ (Blockchain.nodes bc = {[ node ]} ->
      export_length data > Z.of_nat (length (Blockchain.chain bc)) ->
      Blockchain.is_chain_valid bc
        (Some (Blockchain.chain_objects_of (export_chain data))) = true ->
      (export_chain data <> [] ->
       Blockchain.resolve_conflicts requests_get bc
       = (true,
          Blockchain.set_chain (Blockchain.chain_objects_of (export_chain data)) bc))
      /\ (export_chain data = [] ->
          Blockchain.resolve_conflicts requests_get bc = (false, bc))).
Proof.
  intros Hget. split.
  - intros acc. unfold Blockchain.resolve_step. rewrite Hget. reflexivity.
  - intros Hnodes Hlen Hvalid.
    unfold Blockchain.resolve_conflicts, Blockchain.resolve_conflicts_in.
    rewrite Hnodes, elements_singleton. simpl.
    unfold Blockchain.resolve_step. rewrite Hget. simpl.
    apply Z.gtb_gt in Hlen. rewrite Hlen, Hvalid. simpl.
    destruct (export_chain data) as [|b rest]; simpl.
    + split; [intros H; contradiction | reflexivity].
    + split; [reflexivity | discriminate].
Qed.

Lemma resolve_conflicts_trusts_length_field_witness :
  (length (export_chain inflated_answer)
   < length (Blockchain.chain mined_ledger_with_peer))%nat
  /\ Blockchain.resolve_conflicts (answer_with inflated_answer) mined_ledger_with_peer
     = (true,
        Blockchain.set_chain
          (Blockchain.chain_objects_of (export_chain inflated_answer))
          mined_ledger_with_peer).
Proof.
  split; [simpl; lia|].
  apply (resolve_conflicts_trusts_length_field (answer_with inflated_answer)
           mined_ledger_with_peer "peer1:5000" inflated_answer).
  - reflexivity.
  - reflexivity.
  - simpl. lia.
  - reflexivity.
  - discriminate.
Defined.

(** C3 as stated fails for the empty list: announced as five blocks long
    and valid, it is not installed. *)
Lemma resolve_conflicts_skips_empty_list :
  export_length empty_answer
  > Z.of_nat (length (Blockchain.chain ledger_with_peer))
  /\ (length (export_chain empty_answer)
      <= length (Blockchain.chain ledger_with_peer))%nat
  /\ Blockchain.is_chain_valid ledger_with_peer
       (Some (Blockchain.chain_objects_of (export_chain empty_answer))) = true
  /\ Blockchain.resolve_conflicts (answer_with empty_answer) ledger_with_peer
     = (false, ledger_with_peer).
Proof.
  split; [simpl; lia|]. split; [simpl; lia|]. split; [reflexivity|].
  vm_compute. reflexivity.
Qed.

(** * Further properties of the code *)

(** ** The shape of valid chains *)

Lemma hash_chain_invariants_single (d : nat) (b : Block.t) :
  hash_chain_invariants d [b].
Proof.
  intros i prev cur [_ Hc]. apply lookup_lt_Some in Hc. simpl in Hc. lia.
Qed.

Lemma hash_chain_invariants_snoc (d : nat) (chain : list Block.t)
    (latest block : Block.t) :
  hash_chain_invariants d chain ->
  last chain = Some latest ->
  hash_invariants d latest block ->
  hash_chain_invariants d (chain ++ [block]).
Proof.
  intros Hchain Hlast Hpair i prev cur [Hp Hc].
  destruct (Nat.lt_trichotomy (S i) (length chain)) as [Hlt | [Heq | Hgt]].
  - rewrite lookup_app_l in Hp by lia. rewrite lookup_app_l in Hc by lia.
    apply (Hchain i). split; assumption.
  - rewrite lookup_app_l in Hp by lia.
    rewrite Heq, list_lookup_middle in Hc by reflexivity.
    injection Hc as <-.
    rewrite last_lookup, <- Heq in Hlast. simpl in Hlast.
    assert (prev = latest) as -> by congruence. exact Hpair.
  - apply lookup_lt_Some in Hc. rewrite length_app in Hc. simpl in Hc. lia.
Qed.

(** X1: a valid chain stays valid when blocks are cut off at its end or at
    its start: validation only relates neighbours. *)
Theorem is_chain_valid_truncated
    (bc : Blockchain.t) (chain : list Block.t) (n : nat) :
  Blockchain.is_chain_valid bc (Some chain) = true ->
  Blockchain.is_chain_valid bc (Some (firstn n chain)) = true
  /\ Blockchain.is_chain_valid bc (Some (skipn n chain)) = true.
Proof.
  intros Hvalid. apply is_chain_valid_spec in Hvalid. simpl in Hvalid.
  split; apply is_chain_valid_spec; simpl; intros i prev cur [Hp Hc].
  - apply lookup_take_Some in Hp as [Hp _]. apply lookup_take_Some in Hc as [Hc _].
    apply (Hvalid i). split; assumption.
  - rewrite lookup_drop in Hp. rewrite lookup_drop in Hc.
    apply (Hvalid (n + i)%nat). split; [exact Hp|].
    replace (S (n + i)) with (n + S i)%nat by lia. exact Hc.
Qed.

Lemma is_chain_valid_truncated_witness :
  Blockchain.is_chain_valid genesis_ledger (Some gap_chain) = true
  /\ Blockchain.is_chain_valid genesis_ledger (Some (firstn 1 gap_chain)) = true
  /\ Blockchain.is_chain_valid genesis_ledger (Some (skipn 1 gap_chain)) = true.
Proof.
  assert (H : Blockchain.is_chain_valid genesis_ledger (Some gap_chain) = true)
    by (vm_compute; reflexivity).
  split; [exact H|]. exact (is_chain_valid_truncated genesis_ledger gap_chain 1 H).
Defined.

(** X2: in a valid chain the hash text of every block that has a successor
    is pinned, and so is the previous-hash of every block after the first:
    putting a block with another hash text, or another previous-hash, in
    such a place makes the chain invalid. *)
Theorem is_chain_valid_detects_relinking
    (bc : Blockchain.t) (chain : list Block.t) (i : nat) (b b' : Block.t) :
  Blockchain.is_chain_valid bc (Some chain) = true ->
  chain !! i = Some b ->
  ((S i < length chain)%nat /\ Block.hash b' <> Block.hash b)
  \/ ((0 < i)%nat /\ Block.previous_hash b' <> Block.previous_hash b) ->
  Blockchain.is_chain_valid bc (Some (<[i:=b']> chain)) = false.
Proof.
  intros Hvalid Hb Hcase. apply is_chain_valid_spec in Hvalid. simpl in Hvalid.
  destruct (Blockchain.is_chain_valid bc (Some (<[i:=b']> chain))) eqn:Hnew;
    [exfalso | reflexivity].
  apply is_chain_valid_spec in Hnew. simpl in Hnew.
  assert (Hi : (i < length chain)%nat) by (eapply lookup_lt_Some; eassumption).
  destruct Hcase as [[Hnext Hhash] | [Hpos Hprev]].
  - destruct (lookup_lt_is_Some_2 chain (S i) Hnext) as [next Hn].
    destruct (Hvalid i b next (conj Hb Hn)) as [Hl _ _].
    destruct (Hnew i b' next) as [Hl' _ _].
    { split; [apply list_lookup_insert_eq; exact Hi|].
      rewrite list_lookup_insert_ne by lia. exact Hn. }
    congruence.
  - destruct i as [|i]; [lia|].
    destruct (lookup_lt_is_Some_2 chain i ltac:(lia)) as [before Hbefore].
    destruct (Hvalid i before b (conj Hbefore Hb)) as [Hl _ _].
    destruct (Hnew i before b') as [Hl' _ _].
    { split; [rewrite list_lookup_insert_ne by lia; exact Hbefore|].
      apply list_lookup_insert_eq. exact Hi. }
    congruence.
Qed.

Lemma is_chain_valid_detects_relinking_witness :
  Blockchain.is_chain_valid genesis_ledger (Some gap_chain) = true
  /\ Blockchain.is_chain_valid genesis_ledger
       (Some (<[0%nat := Block.set_hash (Some "00") our_genesis]> gap_chain)) = false.
Proof.
  assert (H : Blockchain.is_chain_valid genesis_ledger (Some gap_chain) = true)
    by (vm_compute; reflexivity).
  split; [exact H|].
  apply (is_chain_valid_detects_relinking genesis_ledger gap_chain 0 our_genesis
           (Block.set_hash (Some "00") our_genesis) H).
  - reflexivity.
  - left. split; [simpl; lia | discriminate].
Defined.

(** ** What mining produces *)

(** Everything [mine_pending_transactions] fixes about the block it returns. *)
Lemma mine_pending_transactions_result
    (fuel : nat) (address : string) (reward_time block_time : Z)
    (bc bc' : Blockchain.t) (block : Block.t) :
  Blockchain.mine_pending_transactions fuel address reward_time block_time bc
  = (Return block, bc') ->
  exists latest,
    last (Blockchain.chain bc) = Some latest
    /\ Block.index block = Z.of_nat (length (Blockchain.chain bc))
    /\ Block.transactions block
       = Blockchain.current_transactions bc
         ++ [Transaction.Build None address (Blockchain.mining_reward bc) reward_time]
    /\ Block.timestamp block = block_time
    /\ hash_invariants (Blockchain.difficulty bc) latest block
    /\ 0 <= Block.nonce block
    /\ bc' = Blockchain.set_current_transactions []
               (Blockchain.set_chain (Blockchain.chain bc ++ [block]) bc).
Proof.
  unfold Blockchain.mine_pending_transactions, Blockchain.get_latest_block.
  cbn [Blockchain.chain Blockchain.set_current_transactions].
  destruct (last (Blockchain.chain bc)) as [latest|]; [|discriminate].
  destruct (Blockchain.mine_block _ _ _) as [sealed_block|] eqn:Hmine;
    [|discriminate].
  intros [= <- <-]. exists latest.
  apply mine_block_sound in Hmine as (Hz & (Hi & Ht & Hts & Hp & Hn) & Hcalc).
  cbn [Blockchain.difficulty Blockchain.chain Blockchain.current_transactions
       Blockchain.mining_reward Blockchain.set_current_transactions
       Block.index Block.transactions Block.timestamp Block.previous_hash
       Block.nonce Block._hash Block.new] in *.
  repeat split; try assumption.
  apply Hcalc. reflexivity.
Qed.

(** Whichever way the call ends, the chain is as before or one block longer. *)
Lemma mine_pending_transactions_cases
    (fuel : nat) (address : string) (reward_time block_time : Z)
    (bc : Blockchain.t) :
  (exists block bc',
     Blockchain.mine_pending_transactions fuel address reward_time block_time bc
     = (Return block, bc'))
  \/ snd (Blockchain.mine_pending_transactions fuel address reward_time
            block_time bc)
     = Blockchain.set_current_transactions
         (Blockchain.current_transactions bc
          ++ [Transaction.Build None address (Blockchain.mining_reward bc)
                reward_time]) bc.
Proof.
  unfold Blockchain.mine_pending_transactions.
  destruct (Blockchain.get_latest_block _) as [latest| |]; try (right; reflexivity).
  destruct (Blockchain.mine_block _ _ _) as [sealed_block|];
    [left; eauto | right; reflexivity].
Qed.

(** X3: the block a successful call of [mine_pending_transactions] returns
    holds the pending transactions in the order they were submitted,
    followed by one reward transaction without sender for the given address;
    its index is the former chain length, its previous-hash the hash of the
    former last block, and its nonce is not negative.  Peers, difficulty and
    reward of the ledger are as before. *)
Theorem mined_block_contents
    (fuel : nat) (address : string) (reward_time block_time : Z)
    (bc bc' : Blockchain.t) (block : Block.t) :
  Blockchain.mine_pending_transactions fuel address reward_time block_time bc
  = (Return block, bc') ->
  Block.transactions block
  = Blockchain.current_transactions bc
    ++ [Transaction.Build None address (Blockchain.mining_reward bc) reward_time]
  /\ Block.index block = Z.of_nat (length (Blockchain.chain bc))
  /\ Block.timestamp block = block_time
  /\ (exists latest,
        Blockchain.get_latest_block bc = Return latest
        /\ Block.previous_hash block = Block.hash latest)
  /\ 0 <= Block.nonce block
  /\ Blockchain.nodes bc' = Blockchain.nodes bc
  /\ Blockchain.difficulty bc' = Blockchain.difficulty bc
  /\ Blockchain.mining_reward bc' = Blockchain.mining_reward bc.
Proof.
  intros Hmine.
  apply mine_pending_transactions_result in Hmine
    as (latest & Hlast & Hi & Ht & Hts & [Hl _ _] & Hn & ->).
  split; [exact Ht|]. split; [exact Hi|]. split; [exact Hts|]. split.
  - exists latest. unfold Blockchain.get_latest_block. rewrite Hlast. auto.
  - repeat split. exact Hn.
Qed.

Lemma mined_block_contents_witness :
  Blockchain.mine_pending_transactions 4 "addr1" 1730023002 1730023002 paid_ledger
  = (Return sealed_block, mined_ledger)
  /\ Block.transactions sealed_block
     = Blockchain.current_transactions paid_ledger
       ++ [Transaction.Build None "addr1" (Blockchain.mining_reward paid_ledger)
             1730023002].
Proof.
  assert (H : Blockchain.mine_pending_transactions 4 "addr1" 1730023002 1730023002
                paid_ledger
              = (Return sealed_block, mined_ledger))
    by (vm_compute; reflexivity).
  split; [exact H|].
  exact (proj1 (mined_block_contents _ _ _ _ _ _ _ H)).
Defined.

(** The nonces the loop has passed over all failed the test. *)
Lemma mine_block_first (fuel : nat) (bc : Blockchain.t) (b b' : Block.t) :
  Blockchain.mine_block fuel bc b = Some b' ->
  Block._hash b = None ->
  forall n, Block.nonce b <= n < Block.nonce b' ->
    (leading_zeros (Block.calculate_hash (Block.set_nonce n b))
     < Blockchain.difficulty bc)%nat.
Proof.
  revert b. induction fuel as [|fuel IH]; intros b; [discriminate|].
  intros Hmine Hnone n Hn.
  change (Blockchain.mine_block (S fuel) bc b)
    with (let block := Block.cached b in
          if negb (String.eqb (str_prefix (Blockchain.difficulty bc) (Block.hash block))
                              (str_mul "0" (Blockchain.difficulty bc)))
          then Blockchain.mine_block fuel bc
                 (Block.set_hash None (Block.set_nonce (Block.nonce block + 1) block))
          else Some block) in Hmine.
  cbv zeta in Hmine.
  destruct (String.eqb _ _) eqn:Htest; simpl negb in Hmine; cbv iota in Hmine.
  - injection Hmine as <-. simpl in Hn. lia.
  - assert (Hhash : Block.hash (Block.cached b) = Block.calculate_hash b).
    { unfold Block.cached, Block.hash. simpl. rewrite Hnone. reflexivity. }
    rewrite Hhash in Htest.
    destruct (Z.eq_dec n (Block.nonce b)) as [-> | Hne].
    + assert (E : Block.calculate_hash (Block.set_nonce (Block.nonce b) b)
                  = Block.calculate_hash b)
        by (apply calculate_hash_fields; reflexivity).
      rewrite E.
      destruct (le_lt_dec (Blockchain.difficulty bc)
                  (leading_zeros (Block.calculate_hash b))) as [Hle | Hlt];
        [|exact Hlt].
      apply prefix_test in Hle. congruence.
    + specialize (IH _ Hmine eq_refl n).
      cbn [Block.nonce Block.set_hash Block.set_nonce Block.cached] in IH.
      erewrite calculate_hash_fields; [apply IH; lia | | | | |]; reflexivity.
Qed.

(** X4: proof of work is a linear search: the nonce of the block
    [mine_pending_transactions] returns is the smallest nonce from 0 upward
    with which the block's hash has [difficulty] leading zeros. *)
Theorem mined_nonce_is_first
    (fuel : nat) (address : string) (reward_time block_time : Z)
    (bc bc' : Blockchain.t) (block : Block.t) :
  Blockchain.mine_pending_transactions fuel address reward_time block_time bc
  = (Return block, bc') ->
  (Blockchain.difficulty bc <= leading_zeros (Block.hash block))%nat
  /\ forall n, 0 <= n < Block.nonce block ->
       (leading_zeros (Block.calculate_hash (Block.set_nonce n block))
        < Blockchain.difficulty bc)%nat.
Proof.
  intros Hmine.
  destruct (mine_pending_transactions_result _ _ _ _ _ _ _ Hmine)
    as (latest & _ & _ & _ & _ & [_ _ Hz] & _ & _).
  split; [exact Hz|].
  revert Hmine. unfold Blockchain.mine_pending_transactions.
  destruct (Blockchain.get_latest_block _) as [tip| |]; try discriminate.
  destruct (Blockchain.mine_block _ _ _) as [sealed_block|] eqn:Hloop;
    [|discriminate].
  intros [= <- _] n Hn.
  pose proof (mine_block_sound _ _ _ _ Hloop) as (_ & (Hi & Ht & Hts & Hp & _) & _).
  pose proof (mine_block_first _ _ _ _ Hloop eq_refl n) as Hfirst.
  cbn [Blockchain.difficulty Blockchain.set_current_transactions] in Hfirst.
  simpl in Hi, Ht, Hts, Hp.
  erewrite calculate_hash_fields; [apply Hfirst; simpl; lia | | | | |];
    simpl; solve [reflexivity | assumption].
Qed.

Lemma mined_nonce_is_first_witness :
  Blockchain.mine_pending_transactions 4 "addr1" 1730023002 1730023002 paid_ledger
  = (Return sealed_block, mined_ledger)
  /\ Block.nonce sealed_block = 3
  /\ (leading_zeros (Block.calculate_hash (Block.set_nonce 2 sealed_block))
      < Blockchain.difficulty paid_ledger)%nat.
Proof.
  assert (H : Blockchain.mine_pending_transactions 4 "addr1" 1730023002 1730023002
                paid_ledger
              = (Return sealed_block, mined_ledger))
    by (vm_compute; reflexivity).
  split; [exact H|]. split; [reflexivity|].
  apply (proj2 (mined_nonce_is_first _ _ _ _ _ _ _ H)). simpl. lia.
Defined.

Lemma mine_block_finds_bound (k : nat) (bc : Blockchain.t) (b : Block.t) :
  Block._hash b = None ->
  (Blockchain.difficulty bc
   <= leading_zeros
        (Block.calculate_hash (Block.set_nonce (Block.nonce b + Z.of_nat k) b)))%nat ->
  exists b',
    Blockchain.mine_block (S k) bc b = Some b'
    /\ Block.nonce b' <= Block.nonce b + Z.of_nat k.
Proof.
  intros Hnone Hz. destruct (mine_block_finds k bc b Hnone Hz) as [b' Hmine].
  exists b'. split; [exact Hmine|].
  destruct (Z_le_gt_dec (Block.nonce b') (Block.nonce b + Z.of_nat k))
    as [Hle | Hgt]; [exact Hle | exfalso].
  pose proof (mine_block_first _ _ _ _ Hmine Hnone (Block.nonce b + Z.of_nat k)
                ltac:(lia)) as Hlt.
  lia.
Qed.

(** X5: mining ends: on a ledger whose chain has a last block, if the
    candidate block gets [difficulty] leading zeros with nonce [k], then
    [k + 1] tests of the loop condition are enough for
    [mine_pending_transactions] to return a block, and its nonce is at most
    [k]. *)
Theorem mining_returns_when_a_nonce_exists
    (k : nat) (address : string) (reward_time block_time : Z)
    (bc : Blockchain.t) (latest : Block.t) :
  last (Blockchain.chain bc) = Some latest ->
  (Blockchain.difficulty bc
   <= leading_zeros
        (Block.calculate_hash
           (Block.new (Z.of_nat (length (Blockchain.chain bc)))
              (Blockchain.current_transactions bc
               ++ [Transaction.Build None address (Blockchain.mining_reward bc)
                     reward_time])
              block_time (Block.hash latest) (Z.of_nat k))))%nat ->
  exists block bc',
    Blockchain.mine_pending_transactions (S k) address reward_time block_time bc
    = (Return block, bc')
    /\ Block.nonce block <= Z.of_nat k.
Proof.
  intros Hlast Hz. unfold Blockchain.mine_pending_transactions.
  unfold Blockchain.get_latest_block.
  cbn [Blockchain.chain Blockchain.set_current_transactions].
  rewrite Hlast.
  destruct (mine_block_finds_bound k
              (Blockchain.set_current_transactions
                 (Blockchain.current_transactions bc
                  ++ [Transaction.Build None address (Blockchain.mining_reward bc)
                        reward_time]) bc)
              (Block.new (Z.of_nat (length (Blockchain.chain bc)))
                 (Blockchain.current_transactions bc
                  ++ [Transaction.Build None address (Blockchain.mining_reward bc)
                        reward_time])
                 block_time (Block.hash latest) 0))
    as (sealed_block & Hsealed & Hbound).
  - reflexivity.
  - exact Hz.
  - cbn [Blockchain.chain Blockchain.current_transactions Blockchain.mining_reward
         Blockchain.set_current_transactions] in *.
    rewrite Hsealed. simpl in Hbound. eauto.
Qed.

Lemma mining_returns_when_a_nonce_exists_witness :
  last (Blockchain.chain paid_ledger) = Some our_genesis
  /\ exists block bc',
       Blockchain.mine_pending_transactions 4 "addr1" 1730023002 1730023002
         paid_ledger
       = (Return block, bc')
       /\ Block.nonce block <= 3.
Proof.
  split; [reflexivity|].
  apply (mining_returns_when_a_nonce_exists 3 "addr1" 1730023002 1730023002
           paid_ledger our_genesis).
  - reflexivity.
  - vm_compute. lia.
Defined.

(** ** Invariants of reachable ledgers *)

Lemma init_invariant (now : Z) : ledger_invariant (Blockchain.init now).
Proof.
  unfold ledger_invariant, Blockchain.init, Blockchain.create_genesis_block.
  cbn [Blockchain.difficulty Blockchain.mining_reward Blockchain.chain
       Blockchain.set_chain app].
  split; [reflexivity|]. split; [reflexivity|]. split; [discriminate|].
  apply hash_chain_invariants_single.
Qed.

Lemma step_constants (bc bc' : Blockchain.t) :
  step bc bc' ->
  Blockchain.difficulty bc' = Blockchain.difficulty bc
  /\ Blockchain.mining_reward bc' = Blockchain.mining_reward bc.
Proof.
  intros Hstep. destruct Hstep; try (split; reflexivity).
  - unfold Blockchain.add_transaction.
    destruct (Blockchain.get_latest_block _); split; reflexivity.
  - unfold Blockchain.mine_pending_transactions.
    destruct (Blockchain.get_latest_block _); try (split; reflexivity).
    destruct (Blockchain.mine_block _ _ _); split; reflexivity.
  - unfold Blockchain.register_node.
    destruct (truthy _); [split; reflexivity|].
    destruct (truthy _); split; reflexivity.
  - unfold Blockchain.resolve_conflicts_in.
    destruct (fst _) as [[|b rest]|]; split; reflexivity.
Qed.

Lemma step_chain_valid (bc bc' : Blockchain.t) :
  step bc bc' ->
  hash_chain_invariants (Blockchain.difficulty bc) (Blockchain.chain bc) ->
  hash_chain_invariants (Blockchain.difficulty bc) (Blockchain.chain bc').
Proof.
  intros Hstep Hchain. destruct Hstep; try assumption.
  - rewrite add_transaction_chain. exact Hchain.
  - destruct (mine_pending_transactions_cases fuel address reward_time
                block_time bc) as [(block & bc' & Hmine) | Hkept].
    + rewrite Hmine.
      apply mine_pending_transactions_result in Hmine
        as (latest & Hlast & _ & _ & _ & Hpair & _ & ->).
      cbn [Blockchain.chain Blockchain.set_chain
           Blockchain.set_current_transactions snd].
      eapply hash_chain_invariants_snoc; eassumption.
    + rewrite Hkept. exact Hchain.
  - rewrite register_node_chain. exact Hchain.
  - destruct (resolve_conflicts_in_cases order requests_get bc)
      as [Hkept | (node & data & _ & (_ & _ & Hvalid) & [[_ Hres] | [_ Hres]])];
      try (rewrite Hkept; exact Hchain); rewrite Hres; [|exact Hchain].
    apply is_chain_valid_spec in Hvalid. exact Hvalid.
Qed.

Lemma step_invariant (bc bc' : Blockchain.t) :
  step bc bc' -> ledger_invariant bc -> ledger_invariant bc'.
Proof.
  intros Hstep (Hd & Hr & Hne & Hchain).
  destruct (step_constants bc bc' Hstep) as [Hd' Hr'].
  unfold ledger_invariant. rewrite Hd', Hr'.
  split; [exact Hd|]. split; [exact Hr|].
  split; [exact (step_chain_nonempty bc bc' Hstep Hne)|].
  exact (step_chain_valid bc bc' Hstep Hchain).
Qed.

Lemma reachable_invariant (bc : Blockchain.t) :
  reachable bc -> ledger_invariant bc.
Proof.
  induction 1 as [now | bc bc' _ IH Hstep].
  - apply init_invariant.
  - exact (step_invariant bc bc' Hstep IH).
Qed.

(** X6: whatever calls have been made since construction, with whatever
    answers from peers, the ledger's own chain passes [is_chain_valid], the
    difficulty is 4 and the mining reward is 10. *)
Theorem reachable_chain_valid (bc : Blockchain.t) :
  reachable bc ->
  Blockchain.is_chain_valid bc None = true
  /\ Blockchain.difficulty bc = 4%nat
  /\ Blockchain.mining_reward bc = 10.
Proof.
  intros Hreach.
  destruct (reachable_invariant bc Hreach) as (Hd & Hr & _ & Hchain).
  split; [|split; assumption].
  apply is_chain_valid_spec. exact Hchain.
Qed.

Lemma reachable_chain_valid_witness :
  reachable
    (snd (Blockchain.resolve_conflicts_in ["peer1:5000"]
            (answer_with inflated_answer) (Blockchain.init 1730000000)))
  /\ Blockchain.is_chain_valid
       (snd (Blockchain.resolve_conflicts_in ["peer1:5000"]
               (answer_with inflated_answer) (Blockchain.init 1730000000)))
       None = true.
Proof.
  assert (H : reachable
                (snd (Blockchain.resolve_conflicts_in ["peer1:5000"]
                        (answer_with inflated_answer)
                        (Blockchain.init 1730000000)))).
  { apply (reachable_step (Blockchain.init 1730000000)).
    - apply reachable_init.
    - apply step_resolve_conflicts. }
  split; [exact H|]. exact (proj1 (reachable_chain_valid _ H)).
Defined.

Lemma mined_locally_reachable (bc : Blockchain.t) :
  mined_locally bc -> reachable bc.
Proof.
  induction 1 as [now | bc s r a now _ IH | bc fuel address rt bt _ IH
                 | bc urlparse address _ IH].
  - apply reachable_init.
  - eapply reachable_step; [exact IH | apply step_add_transaction].
  - eapply reachable_step; [exact IH | apply step_mine_pending_transactions].
  - eapply reachable_step; [exact IH | apply step_register_node].
Qed.

(** On a ledger built without consensus every block sits at its index. *)
Lemma mined_locally_indices (bc : Blockchain.t) :
  mined_locally bc ->
  forall i b, Blockchain.chain bc !! i = Some b -> Block.index b = Z.of_nat i.
Proof.
  induction 1 as [now | bc s r a now _ IH | bc fuel address rt bt _ IH
                 | bc urlparse address _ IH]; intros i b.
  - unfold Blockchain.init, Blockchain.create_genesis_block.
    cbn [Blockchain.chain Blockchain.set_chain app].
    intros Hb. apply list_lookup_singleton_Some in Hb as [-> <-]. reflexivity.
  - rewrite add_transaction_chain. apply IH.
  - destruct (mine_pending_transactions_cases fuel address rt bt bc)
      as [(block & bc' & Hmine) | Hkept].
    + rewrite Hmine.
      apply mine_pending_transactions_result in Hmine
        as (latest & _ & Hi & _ & _ & _ & _ & ->).
      cbn [Blockchain.chain Blockchain.set_chain
           Blockchain.set_current_transactions snd].
      intros Hb. apply lookup_snoc_Some in Hb as [[_ Hb] | [-> <-]].
      * apply IH. exact Hb.
      * exact Hi.
    + rewrite Hkept. apply IH.
  - rewrite register_node_chain. apply IH.
Qed.

(** X7: on a ledger that was only built by submissions, mining and peer
    registration, every block's index is its position, all four chain
    invariants hold (the consecutive indices included), and
    [add_transaction] returns the chain length, the index the next block
    gets. *)
Theorem local_chain_indexed (bc : Blockchain.t) :
  mined_locally bc ->
  (forall i b, Blockchain.chain bc !! i = Some b -> Block.index b = Z.of_nat i)
  /\ chain_invariants (Blockchain.difficulty bc) (Blockchain.chain bc)
  /\ (forall sender recipient amount now,
        fst (Blockchain.add_transaction sender recipient amount now bc)
        = Return (Z.of_nat (length (Blockchain.chain bc)))).
Proof.
  intros Hlocal. pose proof (mined_locally_indices bc Hlocal) as Hidx.
  destruct (reachable_invariant bc (mined_locally_reachable bc Hlocal))
    as (_ & _ & Hne & Hchain).
  split; [exact Hidx|]. split.
  - intros i prev cur Hadj. split; [|apply (Hchain i); exact Hadj].
    destruct Hadj as [Hp Hc]. unfold index_consecutive.
    rewrite (Hidx _ _ Hp), (Hidx _ _ Hc). lia.
  - intros sender recipient amount now.
    unfold Blockchain.add_transaction, Blockchain.get_latest_block.
    cbn [Blockchain.chain Blockchain.set_current_transactions].
    destruct (last (Blockchain.chain bc)) as [tip|] eqn:Hlast.
    + simpl. rewrite last_lookup in Hlast. rewrite (Hidx _ _ Hlast).
      apply lookup_lt_Some in Hlast. f_equal. lia.
    + apply last_None in Hlast. contradiction.
Qed.

Lemma local_chain_indexed_witness :
  mined_locally
    (snd (Blockchain.add_transaction (Some "A") "B" 5 1730000060
            (Blockchain.init 1730000000)))
  /\ fst (Blockchain.add_transaction (Some "B") "C" 2 1730000061
            (snd (Blockchain.add_transaction (Some "A") "B" 5 1730000060
                    (Blockchain.init 1730000000))))
     = Return
         (Z.of_nat
            (length
               (Blockchain.chain
                  (snd (Blockchain.add_transaction (Some "A") "B" 5 1730000060
                          (Blockchain.init 1730000000)))))).
Proof.
  assert (H : mined_locally
                (snd (Blockchain.add_transaction (Some "A") "B" 5 1730000060
                        (Blockchain.init 1730000000)))).
  { apply local_add_transaction. apply local_init. }
  split; [exact H|].
  exact (proj2 (proj2 (local_chain_indexed _ H)) (Some "B") "C" 2 1730000061).
Defined.

(** ** Balances and mining *)

Lemma sealed_transactions_snoc (chain : list Block.t) (block : Block.t) :
  sealed_transactions (chain ++ [block])
  = sealed_transactions chain ++ Block.transactions block.
Proof.
  unfold sealed_transactions.
  rewrite map_app, concat_app. simpl. rewrite app_nil_r. reflexivity.
Qed.

(** X8: mining settles the pool.  After a successful call of
    [mine_pending_transactions] the chain holds one block more, with the
    pending transactions and then the reward, so the loop of [get_balance]
    goes on from the former balance over these, whatever the arithmetic.
    With amounts that are Python ints the balance of every address is its
    balance before, plus what the pending transactions paid to it, minus
    what they took from it, plus the reward if it is the miner's address;
    the loop in binary64 over the same whole numbers gives the float of
    that, as long as it stays in a range on which binary64 is exact. *)
Theorem mining_settles_pending
    (fuel : nat) (address : string) (reward_time block_time : Z)
    (bc bc' : Blockchain.t) (block : Block.t) (who : string) :
  Blockchain.mine_pending_transactions fuel address reward_time block_time bc
  = (Return block, bc') ->
  entries_of (Blockchain.chain bc')
  = entries_of (Blockchain.chain bc)
    ++ [map entry_of
          (Blockchain.current_transactions bc
           ++ [Transaction.Build None address (Blockchain.mining_reward bc)
                 reward_time])]
  /\ (forall (A : Type) (zero : A) (add sub : A -> A -> A)
             (chain : list (list (Amounts.entry A)))
             (sealed : list (Amounts.entry A)),
        Amounts.get_balance zero add sub who (chain ++ [sealed])
        = fold_left (Amounts.step add sub who) sealed
            (Amounts.get_balance zero add sub who chain))
  /\ Blockchain.get_balance who bc'
     = Blockchain.get_balance who bc
       + net_amount who (Blockchain.current_transactions bc)
       + (if String.eqb address who then Blockchain.mining_reward bc else 0)
  /\ (forall bound,
        exact_upto bound ->
        within bound who (concat (entries_of (Blockchain.chain bc'))) 0 = true ->
        Amounts.get_balance_binary64 who
          (as_binary64 (entries_of (Blockchain.chain bc')))
        = whole (Blockchain.get_balance who bc
                 + net_amount who (Blockchain.current_transactions bc)
                 + (if String.eqb address who
                    then Blockchain.mining_reward bc else 0))).
Proof.
  intros Hmine.
  apply mine_pending_transactions_result in Hmine
    as (_ & _ & _ & Htxs & _ & _ & _ & ->).
  assert (Hbalance :
            Blockchain.get_balance who
              (Blockchain.set_current_transactions []
                 (Blockchain.set_chain (Blockchain.chain bc ++ [block]) bc))
            = Blockchain.get_balance who bc
              + net_amount who (Blockchain.current_transactions bc)
              + (if String.eqb address who
                 then Blockchain.mining_reward bc else 0)).
  { rewrite !get_balance_formula. unfold received, sent, net_amount.
    cbn [Blockchain.chain Blockchain.set_chain
         Blockchain.set_current_transactions].
    rewrite sealed_transactions_snoc, Htxs.
    rewrite !List.filter_app, !sum_amounts_app. simpl.
    destruct (String.eqb address who); simpl; lia. }
  split; [|split; [|split]].
  - cbn [Blockchain.chain Blockchain.set_chain
         Blockchain.set_current_transactions].
    unfold entries_of. rewrite map_app. cbn [map]. rewrite Htxs. reflexivity.
  - intros A zero add sub chain sealed. unfold Amounts.get_balance.
    rewrite fold_left_app. reflexivity.
  - exact Hbalance.
  - intros bound Hexact Hin.
    rewrite (binary64_balance_exact bound _ _ Hexact Hin).
    rewrite <- get_balance_as_loop, Hbalance. reflexivity.
Qed.

Lemma mining_settles_pending_witness :
  Blockchain.mine_pending_transactions 4 "addr1" 1730023002 1730023002 paid_ledger
  = (Return sealed_block, mined_ledger)
  /\ Blockchain.get_balance "B" mined_ledger
     = Blockchain.get_balance "B" paid_ledger
       + net_amount "B" (Blockchain.current_transactions paid_ledger)
       + (if String.eqb "addr1" "B" then Blockchain.mining_reward paid_ledger else 0)
  /\ Blockchain.get_balance "B" mined_ledger = 5
  /\ within 32 "B" (concat (entries_of (Blockchain.chain mined_ledger))) 0 = true
  /\ Amounts.get_balance_binary64 "B"
       (as_binary64 (entries_of (Blockchain.chain mined_ledger)))
     = 5%float.
Proof.
  assert (H : Blockchain.mine_pending_transactions 4 "addr1" 1730023002 1730023002
                paid_ledger
              = (Return sealed_block, mined_ledger))
    by (vm_compute; reflexivity).
  assert (Hin : within 32 "B"
                  (concat (entries_of (Blockchain.chain mined_ledger))) 0 = true)
    by reflexivity.
  destruct (mining_settles_pending _ _ _ _ _ _ _ "B" H)
    as (_ & _ & Hbalance & Hfloat).
  split; [exact H|]. split; [exact Hbalance|]. split; [reflexivity|].
  split; [exact Hin|].
  exact (Hfloat 32 binary64_exact_upto_32 Hin).
Defined.

Lemma indicator_sum_out (addresses : list string) (who : string) (x : Z) :
  ~ In who addresses ->
  fold_right (fun a acc => (if String.eqb who a then x else 0) + acc) 0 addresses
  = 0.
Proof.
  induction addresses as [|a addresses IH]; simpl; [reflexivity|].
  intros Hout. rewrite IH by tauto.
  destruct (String.eqb_spec who a) as [-> | _]; [tauto | lia].
Qed.

Lemma indicator_sum (addresses : list string) (who : string) (x : Z) :
  List.NoDup addresses ->
  In who addresses ->
  fold_right (fun a acc => (if String.eqb who a then x else 0) + acc) 0 addresses
  = x.
Proof.
  induction 1 as [|a addresses Hnotin _ IH]; simpl; [tauto|].
  intros [-> | Hin].
  - rewrite String.eqb_refl, indicator_sum_out by assumption. lia.
  - rewrite IH by assumption.
    destruct (String.eqb_spec who a) as [-> | _]; [contradiction | lia].
Qed.

Lemma total_net_amount (addresses : list string) (txs : list Transaction.t) :
  List.NoDup addresses ->
  Forall (fun tx =>
            In (Transaction.recipient tx) addresses
            /\ forall s, Transaction.sender tx = Some s -> In s addresses) txs ->
  fold_right (fun a acc => net_amount a txs + acc) 0 addresses
  = sum_amounts
      (List.filter (fun tx => match Transaction.sender tx with
                              | None => true
                              | Some _ => false
                              end) txs).
Proof.
  intros Hnodup Hall. induction Hall as [|tx txs [Hrec Hsend] _ IH].
  - unfold net_amount. simpl. induction addresses; simpl; [reflexivity|].
    inversion Hnodup; subst. rewrite IHaddresses by assumption. reflexivity.
  - transitivity
      (fold_right
         (fun a acc =>
            (if String.eqb (Transaction.recipient tx) a
             then Transaction.amount tx else 0) + acc) 0 addresses
       - fold_right
           (fun a acc =>
              (if opt_str_eqb (Transaction.sender tx) a
               then Transaction.amount tx else 0) + acc) 0 addresses
       + fold_right (fun a acc => net_amount a txs + acc) 0 addresses).
    { clear. induction addresses as [|a addresses IHa]; simpl; [reflexivity|].
      rewrite IHa. unfold net_amount. simpl.
      destruct (String.eqb _ a), (opt_str_eqb _ a); simpl; lia. }
    rewrite IH, (indicator_sum addresses _ _ Hnodup Hrec).
    simpl. destruct (Transaction.sender tx) as [s|] eqn:Hs; simpl.
    + rewrite (indicator_sum addresses s _ Hnodup (Hsend s eq_refl)). lia.
    + replace (fold_right (fun a acc => 0 + acc) 0 addresses) with 0; [lia|].
      clear. induction addresses; simpl; [reflexivity | assumption].
Qed.

(** X9: transfers between addresses create no money, for amounts that
    are Python ints: over any list of distinct addresses that contains every
    sender and recipient of the sealed transactions, the balances add up to
    the amounts of the sealed transactions without sender (the mining
    rewards among them).  The loop in binary64 over the same whole numbers
    gives the floats of these balances, as long as it stays, for each of the
    addresses, in a range on which binary64 is exact. *)
Theorem balances_add_up_to_issued (addresses : list string) (bc : Blockchain.t) :
  List.NoDup addresses ->
  covers addresses (Blockchain.chain bc) ->
  total_balance addresses bc = issued (Blockchain.chain bc)
  /\ (forall bound,
        exact_upto bound ->
        (forall a, In a addresses ->
           within bound a (concat (entries_of (Blockchain.chain bc))) 0 = true) ->
        map (fun a => Amounts.get_balance_binary64 a
                        (as_binary64 (entries_of (Blockchain.chain bc))))
            addresses
        = map (fun a => whole (Blockchain.get_balance a bc)) addresses).
Proof.
  intros Hnodup Hcovers. split.
  - unfold total_balance, issued.
    rewrite <- (total_net_amount addresses _ Hnodup Hcovers).
    clear. induction addresses as [|a addresses IH]; simpl; [reflexivity|].
    rewrite IH, get_balance_formula. reflexivity.
  - intros bound Hexact Hin. apply List.map_ext_in. intros a Ha.
    rewrite (binary64_balance_exact bound _ _ Hexact (Hin a Ha)).
    rewrite <- get_balance_as_loop. reflexivity.
Qed.

Lemma balances_add_up_to_issued_witness :
  List.NoDup ["A"; "B"; "C"; "addr1"]
  /\ covers ["A"; "B"; "C"; "addr1"] (Blockchain.chain settled_ledger)
  /\ total_balance ["A"; "B"; "C"; "addr1"] settled_ledger = 20
  /\ map (fun a => Amounts.get_balance_binary64 a
                     (as_binary64 (entries_of (Blockchain.chain settled_ledger))))
         ["A"; "B"; "C"; "addr1"]
     = [(-5)%float; 2%float; 3%float; 20%float].
Proof.
  assert (Hnodup : List.NoDup ["A"; "B"; "C"; "addr1"]).
  { repeat constructor; simpl; intros H;
      repeat (destruct H as [H | H]; [discriminate|]); exact H. }
  assert (Hcovers : covers ["A"; "B"; "C"; "addr1"]
                      (Blockchain.chain settled_ledger)).
  { unfold covers. simpl.
    constructor; [|constructor; [|constructor; [|constructor; [|constructor]]]].
    - split; [simpl; tauto|]. intros s [= <-]. simpl. tauto.
    - split; [simpl; tauto|]. intros s Hs. discriminate.
    - split; [simpl; tauto|]. intros s [= <-]. simpl. tauto.
    - split; [simpl; tauto|]. intros s Hs. discriminate. }
  assert (Hin : forall a, In a ["A"; "B"; "C"; "addr1"] ->
                  within 32 a
                    (concat (entries_of (Blockchain.chain settled_ledger))) 0
                  = true).
  { intros a [<- | [<- | [<- | [<- | []]]]]; reflexivity. }
  destruct (balances_add_up_to_issued _ _ Hnodup Hcovers) as [Htotal Hfloat].
  split; [exact Hnodup|]. split; [exact Hcovers|].
  split; [rewrite Htotal; reflexivity|].
  exact (Hfloat 32 binary64_exact_upto_32 Hin).
Defined.

(** ** Submitting through the API *)



(** X11: the balance test of [POST /api/transactions] does not see the
    pool: a body that has been accepted is accepted again, with the same
    announced index, as long as no block is mined, and both transactions
    are pending. *)
Theorem api_transactions_post_repeatable
    (values : Routes.TransactionValues) (now now' : Z) (bc bc' : Blockchain.t)
    (index : Z) :
  Routes.api_transactions_post values now bc
  = (Return (Routes.TransactionAdded index, 201), bc') ->
  exists sender recipient amount,
    values = {| Routes.v_sender := Some sender;
                Routes.v_recipient := Some recipient;
                Routes.v_amount := Some amount |}
    /\ Routes.api_transactions_post values now' bc'
       = (Return (Routes.TransactionAdded index, 201),
          Blockchain.set_current_transactions
            (Blockchain.current_transactions bc
             ++ [Transaction.Build (Some sender) recipient amount now;
                 Transaction.Build (Some sender) recipient amount now']) bc).
Proof.
  unfold Routes.api_transactions_post.
  destruct values as [[sender|] [recipient|] [amount|]]; simpl; try discriminate.
  destruct (amount <=? 0) eqn:H0; [discriminate|].
  destruct (String.eqb sender recipient) eqn:Hsame; [discriminate|].
  destruct (negb (String.eqb sender "Mining Reward")
            && (Blockchain.get_balance sender bc <? amount)) eqn:Hpoor;
    [discriminate|].
  unfold Blockchain.add_transaction, Blockchain.get_latest_block.
  cbn [Blockchain.chain Blockchain.set_current_transactions].
  destruct (last (Blockchain.chain bc)) as [tip|] eqn:Hlast; [|discriminate].
  intros [= <- <-]. exists sender, recipient, amount. split; [reflexivity|].
  change (Blockchain.get_balance sender
            (Blockchain.set_current_transactions
               (Blockchain.current_transactions bc
                ++ [Transaction.Build (Some sender) recipient amount now]) bc))
    with (Blockchain.get_balance sender bc).
  rewrite Hpoor.
  cbn [Blockchain.chain Blockchain.current_transactions
       Blockchain.set_current_transactions].
  rewrite Hlast, <- app_assoc. reflexivity.
Qed.

Lemma api_transactions_post_repeatable_witness :
  Routes.api_transactions_post
    {| Routes.v_sender := Some "B"; Routes.v_recipient := Some "C";
       Routes.v_amount := Some 5 |} 1730030000 mined_ledger
  = (Return (Routes.TransactionAdded 2, 201),
     Blockchain.set_current_transactions
       [Transaction.Build (Some "B") "C" 5 1730030000] mined_ledger)
  /\ Blockchain.get_balance "B" mined_ledger = 5
  /\ exists sender recipient amount,
       {| Routes.v_sender := Some "B"; Routes.v_recipient := Some "C";
          Routes.v_amount := Some 5 |}
       = {| Routes.v_sender := Some sender; Routes.v_recipient := Some recipient;
            Routes.v_amount := Some amount |}
       /\ Routes.api_transactions_post
            {| Routes.v_sender := Some "B"; Routes.v_recipient := Some "C";
               Routes.v_amount := Some 5 |} 1730030001
            (Blockchain.set_current_transactions
               [Transaction.Build (Some "B") "C" 5 1730030000] mined_ledger)
          = (Return (Routes.TransactionAdded 2, 201),
             Blockchain.set_current_transactions
               (Blockchain.current_transactions mined_ledger
                ++ [Transaction.Build (Some sender) recipient amount 1730030000;
                    Transaction.Build (Some sender) recipient amount 1730030001])
               mined_ledger).
Proof.
  assert (H : Routes.api_transactions_post
                {| Routes.v_sender := Some "B"; Routes.v_recipient := Some "C";
                   Routes.v_amount := Some 5 |} 1730030000 mined_ledger
              = (Return (Routes.TransactionAdded 2, 201),
                 Blockchain.set_current_transactions
                   [Transaction.Build (Some "B") "C" 5 1730030000] mined_ledger))
    by reflexivity.
  split; [exact H|]. split; [reflexivity|].
  exact (api_transactions_post_repeatable _ 1730030000 1730030001 _ _ _ H).
Defined.

(** ** Exporting a chain and reading it back *)

Lemma cached_hash (b : Block.t) : Block.hash (Block.cached b) = Block.hash b.
Proof. reflexivity. Qed.

Lemma cached_calculate_hash (b : Block.t) :
  Block.calculate_hash (Block.cached b) = Block.calculate_hash b.
Proof. apply calculate_hash_fields; reflexivity. Qed.

Lemma chain_objects_of_to_dict (chain : list Block.t) :
  Blockchain.chain_objects_of (map Block.to_dict chain) = map Block.cached chain.
Proof.
  unfold Blockchain.chain_objects_of. rewrite map_map.
  apply map_ext. intros b. reflexivity.
Qed.

Lemma hash_chain_invariants_cached (d : nat) (chain : list Block.t) :
  hash_chain_invariants d (map Block.cached chain)
  <-> hash_chain_invariants d chain.
Proof.
  unfold hash_chain_invariants, adjacent. split.
  - intros Hall i prev cur [Hp Hc].
    destruct (Hall i (Block.cached prev) (Block.cached cur)) as [Hl Hs Hw].
    { change (map Block.cached chain) with (Block.cached <$> chain).
      rewrite !list_lookup_fmap, Hp, Hc. split; reflexivity. }
    rewrite cached_calculate_hash in Hs. constructor; assumption.
  - intros Hall i prev cur [Hp Hc].
    change (map Block.cached chain) with (Block.cached <$> chain) in Hp, Hc.
    rewrite list_lookup_fmap in Hp. rewrite list_lookup_fmap in Hc.
    destruct (chain !! i) as [p|] eqn:Hpi; [|discriminate].
    destruct (chain !! S i) as [c|] eqn:Hci; [|discriminate].
    injection Hp as <-. injection Hc as <-.
    destruct (Hall i p c (conj Hpi Hci)) as [Hl Hs Hw].
    constructor; [exact Hl | rewrite cached_calculate_hash; exact Hs | exact Hw].
Qed.

Lemma sealed_transactions_cached (chain : list Block.t) :
  sealed_transactions (map Block.cached chain) = sealed_transactions chain.
Proof. unfold sealed_transactions. rewrite map_map. reflexivity. Qed.

(** X12: exporting and reading back.  The blocks [resolve_conflicts]
    rebuilds from the [/api/chain] answer of a ledger are that ledger's
    blocks with their hash cached, and the announced length is their
    number; rebuilt blocks export to the very entries they were read from.
    The rebuilt chain is valid for a ledger of the same difficulty exactly
    when the exporting ledger's own chain is, and gives every address the
    same balance. *)
Theorem export_read_back (bc reader : Blockchain.t) (entries : list BlockData.t) :
  Blockchain.chain_objects_of (export_chain (Routes.api_chain bc))
  = map Block.cached (Blockchain.chain bc)
  /\ export_length (Routes.api_chain bc)
     = Z.of_nat (length (export_chain (Routes.api_chain bc)))
  /\ map Block.to_dict (Blockchain.chain_objects_of entries) = entries
  /\ (Blockchain.difficulty reader = Blockchain.difficulty bc ->
      Blockchain.is_chain_valid reader
        (Some (Blockchain.chain_objects_of (export_chain (Routes.api_chain bc))))
      = Blockchain.is_chain_valid bc None)
  /\ (forall address,
        Blockchain.get_balance address
          (Blockchain.set_chain
             (Blockchain.chain_objects_of (export_chain (Routes.api_chain bc)))
             reader)
        = Blockchain.get_balance address bc).
Proof.
  unfold Routes.api_chain. cbn [export_chain export_length].
  split; [apply chain_objects_of_to_dict|].
  split; [rewrite length_map; reflexivity|].
  split.
  { unfold Blockchain.chain_objects_of. rewrite map_map.
    induction entries as [|[i t ts p n h] entries IH]; simpl; [reflexivity|].
    rewrite IH. reflexivity. }
  split.
  - intros Hd. rewrite chain_objects_of_to_dict.
    pose proof (is_chain_valid_spec reader
                  (Some (map Block.cached (Blockchain.chain bc)))) as Hreader.
    pose proof (is_chain_valid_spec bc None) as Hown.
    simpl in Hreader, Hown. rewrite Hd, hash_chain_invariants_cached in Hreader.
    destruct (Blockchain.is_chain_valid reader _),
             (Blockchain.is_chain_valid bc None); try reflexivity.
    + symmetry. apply Hown, Hreader. reflexivity.
    + apply Hreader, Hown. reflexivity.
  - intros address. rewrite chain_objects_of_to_dict, !get_balance_formula.
    unfold received, sent.
    cbn [Blockchain.chain Blockchain.set_chain].
    rewrite sealed_transactions_cached. reflexivity.
Qed.

Lemma export_read_back_witness :
  Blockchain.difficulty genesis_ledger = Blockchain.difficulty mined_ledger
  /\ Blockchain.is_chain_valid genesis_ledger
       (Some (Blockchain.chain_objects_of
                (export_chain (Routes.api_chain mined_ledger))))
     = Blockchain.is_chain_valid mined_ledger None.
Proof.
  split; [reflexivity|].
  exact (proj1 (proj2 (proj2 (proj2
           (export_read_back mined_ledger genesis_ledger []))))
           eq_refl).
Defined.

(** ** Consensus with one or many peers *)

(** One peer, whose answer passes the test. *)
Lemma resolve_conflicts_single
    (requests_get : string -> fetch) (bc : Blockchain.t)
    (node : string) (data : ChainExport) (b : Block.t) (rest : list Block.t) :
  Blockchain.nodes bc = {[ node ]} ->
  requests_get (Blockchain.chain_url node) = Response 200 data ->
  export_length data > Z.of_nat (length (Blockchain.chain bc)) ->
  Blockchain.is_chain_valid bc
    (Some (Blockchain.chain_objects_of (export_chain data))) = true ->
  Blockchain.chain_objects_of (export_chain data) = b :: rest ->
  Blockchain.resolve_conflicts requests_get bc
  = (true, Blockchain.set_chain (b :: rest) bc).
Proof.
  intros Hnodes Hget Hlen Hvalid Hobjs.
  unfold Blockchain.resolve_conflicts, Blockchain.resolve_conflicts_in.
  rewrite Hnodes, elements_singleton. simpl.
  unfold Blockchain.resolve_step. rewrite Hget. simpl.
  apply Z.gtb_gt in Hlen. rewrite Hlen, Hvalid. simpl.
  rewrite Hobjs. reflexivity.
Qed.

(** X13: a node whose only peer runs this program on a valid, longer chain
    adopts it: [POST /api/consensus] answers that the chain was replaced,
    with the peer's length and the number of blocks gained; afterwards the
    node exports the same chain as the peer, its own chain is valid, and
    every balance is the peer's. *)
Theorem consensus_adopts_honest_longer_chain
    (requests_get : string -> fetch) (node : string)
    (peer local : Blockchain.t) :
  Blockchain.is_chain_valid peer None = true ->
  Blockchain.difficulty local = Blockchain.difficulty peer ->
  Blockchain.nodes local = {[ node ]} ->
  requests_get (Blockchain.chain_url node) = Response 200 (Routes.api_chain peer) ->
  (length (Blockchain.chain local) < length (Blockchain.chain peer))%nat ->
  fst (Routes.api_consensus requests_get local)
  = (Routes.ChainReplaced
       (Z.of_nat (length (Blockchain.chain peer)))
       (Z.of_nat (length (Blockchain.chain peer))
        - Z.of_nat (length (Blockchain.chain local))), 200)
  /\ Routes.api_chain (snd (Routes.api_consensus requests_get local))
     = Routes.api_chain peer
  /\ Blockchain.is_chain_valid (snd (Routes.api_consensus requests_get local)) None
     = true
  /\ (forall address,
        Blockchain.get_balance address
          (snd (Routes.api_consensus requests_get local))
        = Blockchain.get_balance address peer).
Proof.
  intros Hvalid Hd Hnodes Hget Hlonger.
  assert (Hobjs : Blockchain.chain_objects_of (export_chain (Routes.api_chain peer))
                  = map Block.cached (Blockchain.chain peer))
    by apply chain_objects_of_to_dict.
  assert (Hinv : hash_chain_invariants (Blockchain.difficulty local)
                   (map Block.cached (Blockchain.chain peer))).
  { rewrite Hd. apply hash_chain_invariants_cached.
    apply (is_chain_valid_spec peer None). exact Hvalid. }
  destruct (Blockchain.chain peer) as [|g rest] eqn:Hchain; [simpl in Hlonger; lia|].
  assert (Hres : Blockchain.resolve_conflicts requests_get local
                 = (true, Blockchain.set_chain (map Block.cached (g :: rest)) local)).
  { apply (resolve_conflicts_single requests_get local node (Routes.api_chain peer)).
    - exact Hnodes.
    - exact Hget.
    - unfold Routes.api_chain. cbn [export_length]. rewrite Hchain. lia.
    - rewrite Hobjs. apply (is_chain_valid_spec local (Some _)). exact Hinv.
    - rewrite Hobjs. reflexivity. }
  unfold Routes.api_consensus. rewrite Hres.
  cbn [fst snd Blockchain.chain Blockchain.set_chain].
  rewrite length_map. split; [reflexivity|]. split; [|split].
  - unfold Routes.api_chain. cbn [Blockchain.chain Blockchain.set_chain].
    rewrite Hchain, length_map, map_map. reflexivity.
  - apply is_chain_valid_spec. exact Hinv.
  - intros address. rewrite !get_balance_formula. unfold received, sent.
    cbn [Blockchain.chain Blockchain.set_chain].
    rewrite sealed_transactions_cached, Hchain. reflexivity.
Qed.

Lemma consensus_adopts_honest_longer_chain_witness :
  Blockchain.is_chain_valid mined_ledger None = true
  /\ fst (Routes.api_consensus (answer_with (Routes.api_chain mined_ledger))
            ledger_with_peer)
     = (Routes.ChainReplaced 2 1, 200)
  /\ Blockchain.get_balance "addr1"
       (snd (Routes.api_consensus (answer_with (Routes.api_chain mined_ledger))
               ledger_with_peer))
     = Blockchain.get_balance "addr1" mined_ledger.
Proof.
  assert (H : Blockchain.is_chain_valid mined_ledger None = true)
    by (vm_compute; reflexivity).
  split; [exact H|].
  destruct (consensus_adopts_honest_longer_chain
              (answer_with (Routes.api_chain mined_ledger)) "peer1:5000"
              mined_ledger ledger_with_peer H)
    as (Hreply & _ & _ & Hbalance).
  - reflexivity.
  - reflexivity.
  - reflexivity.
  - simpl. lia.
  - split; [exact Hreply | apply Hbalance].
Defined.

Lemma resolve_step_monotone (requests_get : string -> fetch) (bc : Blockchain.t)
    (acc : option (list Block.t) * Z) (node : string) :
  snd acc <= snd (Blockchain.resolve_step requests_get bc acc node).
Proof.
  destruct (resolve_step_cases requests_get bc acc node)
    as [-> | (data & (_ & Hlen & _) & ->)]; simpl; lia.
Qed.

(** The best length the loop ends with is at least the announced length of
    every valid answer. *)
Lemma resolve_loop_bound (requests_get : string -> fetch) (bc : Blockchain.t)
    (order : list string) (acc : option (list Block.t) * Z) :
  snd acc <= snd (fold_left (Blockchain.resolve_step requests_get bc) order acc)
  /\ forall node data,
       In node order ->
       requests_get (Blockchain.chain_url node) = Response 200 data ->
       Blockchain.is_chain_valid bc
         (Some (Blockchain.chain_objects_of (export_chain data))) = true ->
       export_length data
       <= snd (fold_left (Blockchain.resolve_step requests_get bc) order acc).
Proof.
  revert acc. induction order as [|first order IH]; intros acc; simpl.
  - split; [lia | intros node data []].
  - destruct (IH (Blockchain.resolve_step requests_get bc acc first))
      as [Hmono Hall].
    pose proof (resolve_step_monotone requests_get bc acc first) as Hstep.
    split; [lia|].
    intros node data [<- | Hin] Hget Hvalid; [|eauto].
    assert (export_length data
            <= snd (Blockchain.resolve_step requests_get bc acc first)); [|lia].
    unfold Blockchain.resolve_step. rewrite Hget. simpl. rewrite Hvalid.
    destruct (Z.gtb_spec (export_length data) (snd acc)); simpl; lia.
Qed.

(** X14: when [resolve_conflicts] replaces the chain, no registered peer
    gave a valid answer that announced a greater length than the answer the
    new chain comes from. *)
Theorem resolve_conflicts_takes_longest_announced
    (requests_get : string -> fetch) (bc bc' : Blockchain.t) :
  Blockchain.resolve_conflicts requests_get bc = (true, bc') ->
  exists node data,
    node ∈ Blockchain.nodes bc
    /\ requests_get (Blockchain.chain_url node) = Response 200 data
    /\ Blockchain.chain bc' = Blockchain.chain_objects_of (export_chain data)
    /\ forall node' data',
         node' ∈ Blockchain.nodes bc ->
         requests_get (Blockchain.chain_url node') = Response 200 data' ->
         Blockchain.is_chain_valid bc
           (Some (Blockchain.chain_objects_of (export_chain data'))) = true ->
         export_length data' <= export_length data.
Proof.
  unfold Blockchain.resolve_conflicts, Blockchain.resolve_conflicts_in.
  pose proof (resolve_loop_bound requests_get bc (elements (Blockchain.nodes bc))
                (None, Z.of_nat (length (Blockchain.chain bc)))) as [_ Hbound].
  destruct (resolve_loop_cases requests_get bc (elements (Blockchain.nodes bc))
              (None, Z.of_nat (length (Blockchain.chain bc))))
    as [Hsame | (node & data & Hin & (Hget & _ & _) & Hloop)].
  - rewrite Hsame. discriminate.
  - rewrite Hloop in *. simpl.
    destruct (Blockchain.chain_objects_of (export_chain data)) as [|b rest] eqn:Hobjs;
      [discriminate|].
    intros [= <-]. exists node, data.
    split; [apply elem_of_elements, list_elem_of_In; exact Hin|].
    split; [exact Hget|]. split; [simpl; congruence|].
    intros node' data' Hin' Hget' Hvalid'.
    apply (Hbound node' data'); [|exact Hget' | exact Hvalid'].
    apply list_elem_of_In, elem_of_elements. exact Hin'.
Qed.

Lemma resolve_conflicts_takes_longest_announced_witness :
  Blockchain.resolve_conflicts (answer_with inflated_answer) ledger_with_peer
  = (true,
     Blockchain.set_chain (Blockchain.chain_objects_of [foreign_genesis_data])
       ledger_with_peer)
  /\ exists node data,
       node ∈ Blockchain.nodes ledger_with_peer
       /\ answer_with inflated_answer (Blockchain.chain_url node) = Response 200 data.
Proof.
  assert (H : Blockchain.resolve_conflicts (answer_with inflated_answer)
                ledger_with_peer
              = (true,
                 Blockchain.set_chain
                   (Blockchain.chain_objects_of [foreign_genesis_data])
                   ledger_with_peer))
    by (vm_compute; reflexivity).
  split; [exact H|].
  destruct (resolve_conflicts_takes_longest_announced _ _ _ H)
    as (node & data & Hin & Hget & _).
  exists node, data. split; assumption.
Defined.

(** X15: [resolve_conflicts] keeps the local chain although a registered
    peer's answer passes the test only in one way: a peer answered with an
    empty list of blocks and announced at least as great a length. *)
Theorem resolve_conflicts_kept_despite_candidate
    (requests_get : string -> fetch) (bc : Blockchain.t)
    (node : string) (data : ChainExport) :
  fst (Blockchain.resolve_conflicts requests_get bc) = false ->
  node ∈ Blockchain.nodes bc ->
  qualifies requests_get bc (Z.of_nat (length (Blockchain.chain bc))) node data ->
  exists node' data',
    node' ∈ Blockchain.nodes bc
    /\ requests_get (Blockchain.chain_url node') = Response 200 data'
    /\ export_chain data' = []
    /\ export_length data <= export_length data'.
Proof.
  intros Hkept Hin (Hget & Hlen & Hvalid).
  unfold Blockchain.resolve_conflicts, Blockchain.resolve_conflicts_in in Hkept.
  pose proof (resolve_loop_bound requests_get bc (elements (Blockchain.nodes bc))
                (None, Z.of_nat (length (Blockchain.chain bc)))) as [_ Hbound].
  specialize (Hbound node data
                ltac:(apply list_elem_of_In, elem_of_elements; exact Hin)
                Hget Hvalid).
  destruct (resolve_loop_cases requests_get bc (elements (Blockchain.nodes bc))
              (None, Z.of_nat (length (Blockchain.chain bc))))
    as [Hsame | (node' & data' & Hin' & (Hget' & _ & _) & Hloop)].
  - rewrite Hsame in Hbound. simpl in Hbound. lia.
  - rewrite Hloop in Hkept, Hbound. simpl in Hkept, Hbound.
    exists node', data'.
    split; [apply elem_of_elements, list_elem_of_In; exact Hin'|].
    split; [exact Hget'|]. split; [|exact Hbound].
    destruct (export_chain data'); [reflexivity | discriminate].
Qed.

Lemma resolve_conflicts_kept_despite_candidate_witness :
  fst (Blockchain.resolve_conflicts (answer_with empty_answer) ledger_with_peer)
  = false
  /\ qualifies (answer_with empty_answer) ledger_with_peer
       (Z.of_nat (length (Blockchain.chain ledger_with_peer)))
       "peer1:5000" empty_answer
  /\ exists node' data',
       node' ∈ Blockchain.nodes ledger_with_peer
       /\ answer_with empty_answer (Blockchain.chain_url node') = Response 200 data'
       /\ export_chain data' = []
       /\ export_length empty_answer <= export_length data'.
Proof.
  assert (Hkept : fst (Blockchain.resolve_conflicts (answer_with empty_answer)
                         ledger_with_peer) = false)
    by (vm_compute; reflexivity).
  assert (Hq : qualifies (answer_with empty_answer) ledger_with_peer
                 (Z.of_nat (length (Blockchain.chain ledger_with_peer)))
                 "peer1:5000" empty_answer).
  { split; [reflexivity|]. split; [simpl; lia | reflexivity]. }
  split; [exact Hkept|]. split; [exact Hq|].
  apply (resolve_conflicts_kept_despite_candidate _ _ "peer1:5000" _ Hkept);
    [|exact Hq].
  unfold ledger_with_peer. simpl. set_solver.
Defined.

(** ** Registering peers *)

Lemma union_again (x : string) (s : gset string) :
  {[ x ]} ∪ ({[ x ]} ∪ s) = {[ x ]} ∪ s.
Proof. apply set_eq. intros y. rewrite !elem_of_union. tauto. Qed.

(** X16: [register_node], for an address [urlparse] gives a result for:
    nothing but the peer set changes, and no peer is removed.  When the
    result has a netloc or a path, the call returns and the peer set gains
    the netloc, or the path if the netloc is empty; when it has neither, the
    call raises [ValueError] and the ledger is as before.  Registering the
    same address once more changes nothing. *)
Theorem register_node_effect
    (urlparse : string -> ParseResult) (address : string) (bc : Blockchain.t) :
  let result := Blockchain.register_node urlparse address bc in
  snd result = Blockchain.set_nodes (Blockchain.nodes (snd result)) bc
  /\ Blockchain.nodes bc ⊆ Blockchain.nodes (snd result)
  /\ (netloc (urlparse address) <> "" \/ path (urlparse address) <> "" ->
      result
      = (Return tt,
         Blockchain.set_nodes
           ({[ peer_name (urlparse address) ]} ∪ Blockchain.nodes bc) bc))
  /\ (netloc (urlparse address) = "" /\ path (urlparse address) = "" ->
      result = (Raise ValueError, bc))
  /\ Blockchain.register_node urlparse address (snd result) = result.
Proof.
  unfold Blockchain.register_node, peer_name. cbv zeta.
  destruct bc as [chain pool difficulty reward peers].
  destruct (netloc (urlparse address)) as [|c1 s1] eqn:Hnetloc;
    [destruct (path (urlparse address)) as [|c2 s2] eqn:Hpath|];
    cbn [truthy fst snd Blockchain.chain Blockchain.current_transactions
         Blockchain.difficulty Blockchain.mining_reward
         Blockchain.nodes Blockchain.set_nodes].
  - split; [reflexivity|]. split; [reflexivity|].
    split; [intros [H | H]; destruct H; reflexivity|].
    split; reflexivity.
  - split; [reflexivity|]. split; [apply union_subseteq_r|].
    split; [reflexivity|].
    split; [intros [_ H]; inversion H|].
    rewrite union_again. reflexivity.
  - split; [reflexivity|]. split; [apply union_subseteq_r|].
    split; [reflexivity|].
    split; [intros [H _]; inversion H|].
    rewrite union_again. reflexivity.
Qed.

Lemma register_node_effect_witness :
  (netloc (urlparse_peer "http://peer1:5000") <> ""
   \/ path (urlparse_peer "http://peer1:5000") <> "")
  /\ Blockchain.register_node urlparse_peer "http://peer1:5000" genesis_ledger
     = (Return tt,
        Blockchain.set_nodes
          ({[ peer_name (urlparse_peer "http://peer1:5000") ]}
           ∪ Blockchain.nodes genesis_ledger) genesis_ledger).
Proof.
  assert (H : netloc (urlparse_peer "http://peer1:5000") <> ""
              \/ path (urlparse_peer "http://peer1:5000") <> "")
    by (left; discriminate).
  split; [exact H|].
  destruct (register_node_effect urlparse_peer "http://peer1:5000" genesis_ledger)
    as (_ & _ & Hreturns & _).
  exact (Hreturns H).
Defined.

Lemma register_node_cases
    (urlparse : string -> ParseResult) (address : string) (bc : Blockchain.t) :
  Blockchain.register_node urlparse address bc
  = (Return tt,
     Blockchain.set_nodes
       ({[ peer_name (urlparse address) ]} ∪ Blockchain.nodes bc) bc)
  \/ Blockchain.register_node urlparse address bc = (Raise ValueError, bc).
Proof.
  unfold Blockchain.register_node, peer_name.
  destruct (truthy (netloc (urlparse address))); [left; reflexivity|].
  destruct (truthy (path (urlparse address))); [left | right]; reflexivity.
Qed.

Lemma api_nodes_loop_step
    (urlparse : string -> ParseResult) (requests_get : string -> fetch)
    (node : string) (rest successful failed : list string) (bc : Blockchain.t) :
  Routes.api_nodes_loop urlparse requests_get (node :: rest) successful failed bc
  = if answered_ok requests_get node
    then match Blockchain.register_node urlparse node bc with
         | (Return _, bc) =>
             Routes.api_nodes_loop urlparse requests_get rest
               (successful ++ [node]) failed bc
         | (Raise e, bc) => (Raise e, bc)
         | (Diverge, bc) => (Diverge, bc)
         end
    else Routes.api_nodes_loop urlparse requests_get rest
           successful (failed ++ [node]) bc.
Proof.
  simpl. unfold answered_ok.
  destruct (requests_get (node +:+ "/api/chain")) as [|status body];
    [reflexivity|].
  destruct (status =? 200); reflexivity.
Qed.

Lemma api_nodes_loop_spec
    (urlparse : string -> ParseResult) (requests_get : string -> fetch)
    (nodes : list string) :
  forall (successful failed : list string) (bc bc' : Blockchain.t)
         (successful' failed' : list string),
    Routes.api_nodes_loop urlparse requests_get nodes successful failed bc
    = (Return (successful', failed'), bc') ->
    successful' = successful ++ List.filter (answered_ok requests_get) nodes
    /\ failed'
       = failed ++ List.filter (fun n => negb (answered_ok requests_get n)) nodes
    /\ Blockchain.chain bc' = Blockchain.chain bc
    /\ Blockchain.current_transactions bc' = Blockchain.current_transactions bc
    /\ forall n,
         n ∈ Blockchain.nodes bc'
         <-> n ∈ Blockchain.nodes bc
             \/ exists a,
                  In a (List.filter (answered_ok requests_get) nodes)
                  /\ n = peer_name (urlparse a).
Proof.
  induction nodes as [|node nodes IH]; intros successful failed bc bc' s' f'.
  - simpl. intros [= <- <- <-]. rewrite !app_nil_r.
    split; [reflexivity|]. split; [reflexivity|]. split; [reflexivity|].
    split; [reflexivity|]. intros n. split; [auto|].
    intros [H | (a & [] & _)]. exact H.
  - rewrite api_nodes_loop_step. cbn [List.filter].
    destruct (answered_ok requests_get node) eqn:Hok; cbn [negb].
    + destruct (register_node_cases urlparse node bc) as [Hreg | Hreg];
        rewrite Hreg; [|discriminate].
      intros Hloop. apply IH in Hloop as (-> & -> & Hc & Hp & Hn).
      rewrite <- app_assoc.
      split; [reflexivity|]. split; [reflexivity|]. split; [exact Hc|].
      split; [exact Hp|]. intros n. rewrite Hn.
      cbn [Blockchain.nodes Blockchain.set_nodes].
      rewrite elem_of_union, elem_of_singleton. split.
      * intros [[-> | Hin] | (a & Ha & ->)].
        -- right. exists node. split; [left; reflexivity | reflexivity].
        -- left. exact Hin.
        -- right. exists a. split; [right; exact Ha | reflexivity].
      * intros [Hin | (a & [<- | Ha] & ->)].
        -- left. right. exact Hin.
        -- left. left. reflexivity.
        -- right. exists a. split; [exact Ha | reflexivity].
    + intros Hloop. apply IH in Hloop as (-> & -> & Hc & Hp & Hn).
      rewrite <- app_assoc.
      split; [reflexivity|]. split; [reflexivity|]. split; [exact Hc|].
      split; [exact Hp | exact Hn].
Qed.

(** X17: when [POST /api/nodes] answers 201, the successful nodes are the
    submitted addresses whose test request was answered with status 200, the
    failed nodes are the others, both in the order submitted; chain and pool
    are untouched, and the peer set is the former one plus the names of the
    successful nodes.  Without a list of nodes it answers 400 and leaves the
    ledger as it is. *)
Theorem api_nodes_post_registers_answering_peers
    (urlparse : string -> ParseResult) (requests_get : string -> fetch)
    (nodes : list string) (bc bc' : Blockchain.t)
    (successful failed total : list string) :
  Routes.api_nodes_post urlparse requests_get None bc
  = (Return (Routes.NodesError "Please supply a valid list of nodes", 400), bc)
  /\ (Routes.api_nodes_post urlparse requests_get (Some nodes) bc
      = (Return (Routes.RegistrationComplete successful failed total, 201), bc') ->
      successful = List.filter (answered_ok requests_get) nodes
      /\ failed = List.filter (fun n => negb (answered_ok requests_get n)) nodes
      /\ total = elements (Blockchain.nodes bc')
      /\ Blockchain.chain bc' = Blockchain.chain bc
      /\ Blockchain.current_transactions bc' = Blockchain.current_transactions bc
      /\ forall n,
           n ∈ Blockchain.nodes bc'
           <-> n ∈ Blockchain.nodes bc
               \/ exists a, In a successful /\ n = peer_name (urlparse a)).
Proof.
  split; [reflexivity|]. unfold Routes.api_nodes_post.
  destruct (Routes.api_nodes_loop urlparse requests_get nodes [] [] bc)
    as [[[s f] | e |] bc1] eqn:Hloop; try discriminate.
  intros [= <- <- <- <-].
  apply api_nodes_loop_spec in Hloop as (-> & -> & Hc & Hp & Hn).
  simpl. split; [reflexivity|]. split; [reflexivity|]. split; [reflexivity|].
  split; [exact Hc|]. split; [exact Hp | exact Hn].
Qed.

Lemma api_nodes_post_registers_answering_peers_witness :
  Routes.api_nodes_post urlparse_peer
    (answer_with (Routes.api_chain genesis_ledger))
    (Some ["http://peer1:5000"; "http://peer2:5000"]) genesis_ledger
  = (Return (Routes.RegistrationComplete ["http://peer1:5000"]
               ["http://peer2:5000"] ["peer1:5000"], 201),
     ledger_with_peer)
  /\ ["http://peer1:5000"]
     = List.filter (answered_ok (answer_with (Routes.api_chain genesis_ledger)))
         ["http://peer1:5000"; "http://peer2:5000"].
Proof.
  assert (H : Routes.api_nodes_post urlparse_peer
                (answer_with (Routes.api_chain genesis_ledger))
                (Some ["http://peer1:5000"; "http://peer2:5000"]) genesis_ledger
              = (Return (Routes.RegistrationComplete ["http://peer1:5000"]
                           ["http://peer2:5000"] ["peer1:5000"], 201),
                 ledger_with_peer))
    by (vm_compute; reflexivity).
  split; [exact H|].
  exact (proj1 (proj2 (api_nodes_post_registers_answering_peers _ _ _ _ _ _ _ _) H)).
Defined.

(** X18: the form handler [add_peer].  A missing or empty URL gets the
    error flash asking for a URL; a URL whose test request fails or is
    answered with another status than 200 gets an error flash; in all these
    cases the ledger is as before.  A URL whose test request is answered
    with 200 is handed to [register_node]: when that returns, the flash is a
    success and the ledger differs only by the peer set, which has gained
    the name of the URL; when it raises, the error passes through and the
    ledger is as before. *)
Theorem add_peer_registers_answering_peer
    (urlparse : string -> ParseResult) (requests_get : string -> fetch)
    (peer_url : option string) (bc : Blockchain.t) :
  (peer_url = None \/ peer_url = Some "" ->
   Routes.add_peer urlparse requests_get peer_url bc
   = (Return (Routes.Flash "Please provide a peer URL" "error"), bc))
  /\ (forall url,
        peer_url = Some url -> url <> "" ->
        answered_ok requests_get url = false ->
        exists message,
          Routes.add_peer urlparse requests_get peer_url bc
          = (Return (Routes.Flash message "error"), bc))
  /\ (forall url,
        peer_url = Some url -> url <> "" ->
        answered_ok requests_get url = true ->
        (Blockchain.register_node urlparse url bc
         = (Return tt,
            Blockchain.set_nodes
              ({[ peer_name (urlparse url) ]} ∪ Blockchain.nodes bc) bc)
         /\ Routes.add_peer urlparse requests_get peer_url bc
            = (Return (Routes.Flash ("Peer added successfully: " +:+ url)
                         "success"),
               Blockchain.set_nodes
                 ({[ peer_name (urlparse url) ]} ∪ Blockchain.nodes bc) bc))
        \/ (Blockchain.register_node urlparse url bc = (Raise ValueError, bc)
            /\ Routes.add_peer urlparse requests_get peer_url bc
               = (Raise ValueError, bc))).
Proof.
  unfold Routes.add_peer, answered_ok. split; [|split].
  - intros [-> | ->]; reflexivity.
  - intros url -> Hurl Hbad. destruct url as [|c url]; [contradiction|].
    destruct (requests_get (String c url +:+ "/api/chain"))
      as [|status body]; [eexists; reflexivity|].
    rewrite Hbad. eexists. reflexivity.
  - intros url -> Hurl Hok. destruct url as [|c url]; [contradiction|].
    destruct (requests_get (String c url +:+ "/api/chain"))
      as [|status body]; [discriminate Hok|].
    rewrite Hok.
    destruct (register_node_cases urlparse (String c url) bc) as [Hreg | Hreg];
      rewrite Hreg; [left | right]; split; reflexivity.
Qed.

Lemma add_peer_registers_answering_peer_witness :
  answered_ok (answer_with (Routes.api_chain genesis_ledger)) "http://peer2:5000"
  = false
  /\ (exists message,
        Routes.add_peer urlparse_peer
          (answer_with (Routes.api_chain genesis_ledger))
          (Some "http://peer2:5000") genesis_ledger
        = (Return (Routes.Flash message "error"), genesis_ledger))
  /\ Routes.add_peer urlparse_peer (answer_with (Routes.api_chain genesis_ledger))
       None genesis_ledger
     = (Return (Routes.Flash "Please provide a peer URL" "error"), genesis_ledger).
Proof.
  assert (H : answered_ok (answer_with (Routes.api_chain genesis_ledger))
                "http://peer2:5000" = false) by reflexivity.
  split; [exact H|]. split.
  - apply (proj1 (proj2 (add_peer_registers_answering_peer urlparse_peer
                           (answer_with (Routes.api_chain genesis_ledger))
                           (Some "http://peer2:5000") genesis_ledger))
             "http://peer2:5000" eq_refl); [discriminate | exact H].
  - apply (proj1 (add_peer_registers_answering_peer urlparse_peer
                    (answer_with (Routes.api_chain genesis_ledger))
                    None genesis_ledger)).
    left. reflexivity.
Defined.

(** ** The pool across a replacement *)

(** X19: [resolve_conflicts] leaves the pool as it is, also when it
    replaces the chain; the next block mined holds the whole former pool and
    the reward, so the sealed transactions become those of the chain the
    ledger then has, followed by the former pool and the reward, whether or
    not that chain already contains these transactions. *)
Theorem pool_survives_replacement
    (requests_get : string -> fetch) (replaced : bool)
    (fuel : nat) (address : string) (reward_time block_time : Z)
    (bc bc1 bc2 : Blockchain.t) (block : Block.t) :
  Blockchain.resolve_conflicts requests_get bc = (replaced, bc1) ->
  Blockchain.mine_pending_transactions fuel address reward_time block_time bc1
  = (Return block, bc2) ->
  Blockchain.current_transactions bc1 = Blockchain.current_transactions bc
  /\ Block.transactions block
     = Blockchain.current_transactions bc
       ++ [Transaction.Build None address (Blockchain.mining_reward bc) reward_time]
  /\ sealed_transactions (Blockchain.chain bc2)
     = sealed_transactions (Blockchain.chain bc1)
       ++ Blockchain.current_transactions bc
       ++ [Transaction.Build None address (Blockchain.mining_reward bc) reward_time].
Proof.
  intros Hresolve Hmine.
  assert (Hsame : Blockchain.current_transactions bc1
                  = Blockchain.current_transactions bc
                  /\ Blockchain.mining_reward bc1 = Blockchain.mining_reward bc).
  { revert Hresolve.
    unfold Blockchain.resolve_conflicts, Blockchain.resolve_conflicts_in.
    destruct (fst _) as [[|b rest]|]; intros [= _ <-]; split; reflexivity. }
  destruct Hsame as [Hpool Hreward].
  apply mine_pending_transactions_result in Hmine
    as (_ & _ & _ & Htxs & _ & _ & _ & ->).
  rewrite Hpool, Hreward in Htxs.
  split; [exact Hpool|]. split; [exact Htxs|].
  cbn [Blockchain.chain Blockchain.set_chain Blockchain.set_current_transactions].
  rewrite sealed_transactions_snoc, Htxs. reflexivity.
Qed.

Lemma pool_survives_replacement_witness :
  Blockchain.resolve_conflicts (answer_with inflated_answer) paid_ledger_with_peer
  = (true,
     Blockchain.set_chain (Blockchain.chain_objects_of [foreign_genesis_data])
       paid_ledger_with_peer)
  /\ Blockchain.mine_pending_transactions 2 "addr1" 1730231989 1730231989
       (Blockchain.set_chain (Blockchain.chain_objects_of [foreign_genesis_data])
          paid_ledger_with_peer)
     = (Return block_on_foreign_genesis,
        Blockchain.set_current_transactions []
          (Blockchain.set_chain
             (Blockchain.chain_objects_of [foreign_genesis_data]
              ++ [block_on_foreign_genesis]) paid_ledger_with_peer))
  /\ Block.transactions block_on_foreign_genesis
     = Blockchain.current_transactions paid_ledger_with_peer
       ++ [Transaction.Build None "addr1"
             (Blockchain.mining_reward paid_ledger_with_peer) 1730231989].
Proof.
  assert (H1 : Blockchain.resolve_conflicts (answer_with inflated_answer)
                 paid_ledger_with_peer
               = (true,
                  Blockchain.set_chain
                    (Blockchain.chain_objects_of [foreign_genesis_data])
                    paid_ledger_with_peer))
    by (vm_compute; reflexivity).
  assert (H2 : Blockchain.mine_pending_transactions 2 "addr1" 1730231989 1730231989
                 (Blockchain.set_chain
                    (Blockchain.chain_objects_of [foreign_genesis_data])
                    paid_ledger_with_peer)
               = (Return block_on_foreign_genesis,
                  Blockchain.set_current_transactions []
                    (Blockchain.set_chain
                       (Blockchain.chain_objects_of [foreign_genesis_data]
                        ++ [block_on_foreign_genesis]) paid_ledger_with_peer)))
    by (vm_compute; reflexivity).
  split; [exact H1|]. split; [exact H2|].
  exact (proj1 (proj2 (pool_survives_replacement _ _ _ _ _ _ _ _ _ _ H1 H2))).
Defined.

(** ** The two ways in *)

(** X20: the form handlers and the API handlers leave the same ledger
    behind: [create_transaction] as [POST /api/transactions] with the three
    fields present, the form handler [mine_block] as [POST /api/mine]; and
    a submission is reported as a success by the one exactly when the other
    answers 201. *)
Theorem form_handlers_agree_with_api
    (sender recipient node_identifier : string) (amount now : Z)
    (fuel : nat) (reward_time block_time : Z) (bc : Blockchain.t) :
  snd (Routes.create_transaction sender recipient amount now bc)
  = snd (Routes.api_transactions_post
           {| Routes.v_sender := Some sender; Routes.v_recipient := Some recipient;
              Routes.v_amount := Some amount |} now bc)
  /\ ((exists message,
         fst (Routes.create_transaction sender recipient amount now bc)
         = Return (Routes.Flash message "success"))
      <-> (exists index,
             fst (Routes.api_transactions_post
                    {| Routes.v_sender := Some sender;
                       Routes.v_recipient := Some recipient;
                       Routes.v_amount := Some amount |} now bc)
             = Return (Routes.TransactionAdded index, 201)))
  /\ snd (Routes.mine_block fuel node_identifier reward_time block_time bc)
     = snd (Routes.api_mine fuel node_identifier reward_time block_time bc).
Proof.
  unfold Routes.create_transaction, Routes.api_transactions_post,
    Routes.mine_block, Routes.api_mine.
  cbn [Routes.v_sender Routes.v_recipient Routes.v_amount].
  split; [|split].
  - destruct (amount <=? 0); [reflexivity|].
    destruct (String.eqb sender recipient); [reflexivity|].
    destruct (negb _ && _); [reflexivity|].
    destruct (Blockchain.add_transaction _ _ _ _ _) as [[index | [|] |] bc'];
      reflexivity.
  - destruct (amount <=? 0); [split; intros [x H]; discriminate H|].
    destruct (String.eqb sender recipient); [split; intros [x H]; discriminate H|].
    destruct (negb _ && _); [split; intros [x H]; discriminate H|].
    destruct (Blockchain.add_transaction _ _ _ _ _) as [[index | [|] |] bc'];
      cbn [fst]; split; intros [x H]; try discriminate H; eexists; reflexivity.
  - destruct (Blockchain.current_transactions bc); [reflexivity|].
    destruct (Blockchain.mine_pending_transactions _ _ _ _ _)
      as [[block | e |] bc']; reflexivity.
Qed.
